(** * voxta-gateway: a shallow embedding and its verified properties

    The development follows the layout of the Python package:

    - [PyRt]: what the embedding needs of the Python runtime, namely
      exceptions, a state-and-exception monad with [try_except], and
      insertion-ordered dictionaries;
    - [WSM]: [voxta_gateway/websocket_manager.py], translated from the
      source, each method run from start to end on its own;
    - [WSMAsync]: [broadcast] of the same file run as a task of the
      event loop, which may cancel it or run another task at an [await];
    - [EventEmitter], [Bridge], [SentenceBuffer]: the core components,
      whose modules are described by the design document only and are
      modelled from it.

    All definitions come first; the lemmas and theorems follow in the
    [*Facts] modules. *)

From Stdlib Require Import Ascii String.
From stdpp Require Import gmap strings list fin_maps.

#[local] Set Warnings "-register-all".

(* ===================================================================== *)
(** * Python runtime                                                      *)
(* ===================================================================== *)

Module PyRt.

(** An instance of [Exception]: its class name and its message.
    [except Exception] handlers catch every value of this type.  Task
    cancellation derives from [BaseException] only and comes from the
    event loop: a method embedded in [Py] runs from start to end on its
    own, uncancelled and with no other task in between; [WSMAsync] runs
    [broadcast] as a task among others. *)
Inductive PyExc : Type :=
| Exception_ (cls : string) (msg : string).

(** The outcome of running a statement: a value or a raised exception. *)
Inductive Res (A : Type) : Type :=
| Ok (a : A)
| Raise (e : PyExc).
Arguments Ok {A} a.
Arguments Raise {A} e.

(** Computations over a mutable store [Σ] that may raise.  The store
    survives a raise: whatever was mutated before it stays mutated. *)
Definition Py (Σ A : Type) : Type := Σ → Res A * Σ.

#[global] Instance py_ret {Σ} : MRet (Py Σ) := λ A a s, (Ok a, s).

#[global] Instance py_bind {Σ} : MBind (Py Σ) := λ A B f c s,
  match c s with
  | (Ok a, s') => f a s'
  | (Raise e, s') => (Raise e, s')
  end.

Definition get {Σ} : Py Σ Σ := λ s, (Ok s, s).

Definition modify {Σ} (f : Σ → Σ) : Py Σ unit := λ s, (Ok tt, f s).

Definition raise {Σ A} (e : PyExc) : Py Σ A := λ s, (Raise e, s).

(** [try: body  except Exception as e: handler e]. *)
Definition try_except {Σ A} (body : Py Σ A) (handler : PyExc → Py Σ A)
  : Py Σ A :=
  λ s, match body s with
       | (Raise e, s') => handler e s'
       | r => r
       end.

(** [for x in xs: acc = body acc x], threading a local variable. *)
Fixpoint for_fold {Σ A B} (body : B → A → Py Σ B) (acc : B) (xs : list A)
  : Py Σ B :=
  match xs with
  | [] => mret acc
  | x :: xs' => acc' ← body acc x; for_fold body acc' xs'
  end.

(** [for x in xs: body x]. *)
Definition for_each {Σ A} (body : A → Py Σ unit) (xs : list A) : Py Σ unit :=
  for_fold (λ _ x, body x) tt xs.

(** Event payloads ([dict[str, Any]]), as JSON values. *)
Inductive Json : Type :=
| JNull
| JBool (b : bool)
| JNum (n : Z)
| JStr (s : string)
| JArr (items : list Json)
| JObj (fields : list (string * Json)).

(** Python's [dict] with [str] keys: an association list in insertion
    order, with at most one entry per key ([wf]). *)
Module PyDict.
Section dict.
Context {V : Type}.

Definition keys (d : list (string * V)) : list string := d.*1.

Definition wf (d : list (string * V)) : Prop := NoDup (keys d).

(** [d.get(k)] *)
Fixpoint lookup (k : string) (d : list (string * V)) : option V :=
  match d with
  | [] => None
  | (k', v) :: d' => if decide (k' = k) then Some v else lookup k d'
  end.

(** [k in d] *)
Definition contains (k : string) (d : list (string * V)) : bool :=
  match lookup k d with Some _ => true | None => false end.

(** [d[k] = v]: an existing key keeps its position, a new key goes
    to the end. *)
Fixpoint set (k : string) (v : V) (d : list (string * V))
  : list (string * V) :=
  match d with
  | [] => [(k, v)]
  | (k', v') :: d' =>
      if decide (k' = k) then (k, v) :: d' else (k', v') :: set k v d'
  end.

(** [del d[k]], for a key that may be absent. *)
Definition del (k : string) (d : list (string * V)) : list (string * V) :=
  filter (λ kv, kv.1 ≠ k) d.

(** In-place mutation of the object stored under [k]. *)
Fixpoint update (k : string) (f : V → V) (d : list (string * V))
  : list (string * V) :=
  match d with
  | [] => []
  | (k', v) :: d' =>
      if decide (k' = k) then (k', f v) :: d' else (k', v) :: update k f d'
  end.
End dict.
End PyDict.

End PyRt.

(* ===================================================================== *)
(** * voxta_gateway/websocket_manager.py                                  *)
(* ===================================================================== *)

Module WSM.
Import PyRt.

(** A [fastapi.WebSocket], known by its object identity. *)
Definition WebSocket : Type := nat.

(** [time.time()] readings, in clock units. *)
Definition Timestamp : Type := Z.

(** The [message] dictionary built by [broadcast] and [send_to_client]. *)
Record Message : Type := mkMessage {
  msg_type : string;
  msg_data : Json;
  msg_timestamp : Timestamp;
}.

(** [class ConnectedClient] *)
Record ConnectedClient : Type := mkClient {
  client_id : string;
  websocket : WebSocket;
  subscribed_events : gset string;
  message_history : list Message;   (* deque(maxlen=100) *)
  connected_at : Timestamp;
  last_message_at : Timestamp;
}.

(** Calls made on websockets.  [via] is the registry key on whose behalf
    [send_json] is called (the loop variable [client_id]); [raised] is
    the exception the call ended with, if any. *)
Inductive Effect : Type :=
| EvSendJson (via : string) (ws : WebSocket) (message : Message)
             (raised : option PyExc)
| EvClose (ws : WebSocket) (raised : option PyExc).

(** Records written to [self.logger]. *)
Inductive LogRecord : Type :=
| LogReconnecting (cid : string)
| LogConnected (cid : string) (subs : gset string)
| LogDisconnected (cid : string)
| LogRemoved (cid : string)
| LogSendFailed (cid : string) (e : PyExc)
| LogSubscriptions (cid : string) (events : list string).

(** What the manager cannot decide: which websocket calls raise (this may
    depend on everything done on the network so far) and what the clock
    reads at its n-th reading. *)
Record Env : Type := mkEnv {
  send_json_raises : list Effect → WebSocket → Message → option PyExc;
  close_raises : list Effect → WebSocket → option PyExc;
  clock : nat → Timestamp;
}.

(** [class WebSocketManager]: [self.clients] and [self.logger]. *)
Record WebSocketManager : Type := mkManager {
  clients : list (string * ConnectedClient);
  logger : list LogRecord;
}.

(** The store the methods run in: the manager, the calls made on
    websockets so far, and the number of clock readings so far. *)
Record World : Type := mkWorld {
  self : WebSocketManager;
  net : list Effect;
  ticks : nat;
}.

(** [ALL_EVENTS = "all"] *)
Definition ALL_EVENTS : string := "all".

(** [WebSocketManager.__init__] *)
Definition init : WebSocketManager := {| clients := []; logger := [] |}.

Definition set_clients
    (f : list (string * ConnectedClient) → list (string * ConnectedClient))
    (w : World) : World :=
  {| self := {| clients := f (clients (self w)); logger := logger (self w) |};
     net := net w; ticks := ticks w |}.

Definition log_ (r : LogRecord) : Py World unit :=
  modify (λ w,
    {| self := {| clients := clients (self w);
                  logger := logger (self w) ++ [r] |};
       net := net w; ticks := ticks w |}).

(** [time.time()] *)
Definition time_time (env : Env) : Py World Timestamp :=
  λ w, (Ok (clock env (ticks w)),
        {| self := self w; net := net w; ticks := S (ticks w) |}).

Definition record_effect (ev : Effect) (w : World) : World :=
  {| self := self w; net := net w ++ [ev]; ticks := ticks w |}.

(** [await websocket.send_json(message)] *)
Definition ws_send_json (env : Env) (via : string) (ws : WebSocket)
    (message : Message) : Py World unit :=
  λ w,
    let r := send_json_raises env (net w) ws message in
    let w' := record_effect (EvSendJson via ws message r) w in
    match r with
    | None => (Ok tt, w')
    | Some e => (Raise e, w')
    end.

(** [await websocket.close()] *)
Definition ws_close (env : Env) (ws : WebSocket) : Py World unit :=
  λ w,
    let r := close_raises env (net w) ws in
    let w' := record_effect (EvClose ws r) w in
    match r with
    | None => (Ok tt, w')
    | Some e => (Raise e, w')
    end.

(** [deque.append] on a [deque(maxlen=100)]: the oldest entries fall off. *)
Definition deque_append (maxlen : nat) (x : Message) (q : list Message)
  : list Message :=
  drop (length (q ++ [x]) - maxlen) (q ++ [x]).

Definition history_append (message : Message) (c : ConnectedClient)
  : ConnectedClient :=
  {| client_id := client_id c; websocket := websocket c;
     subscribed_events := subscribed_events c;
     message_history := deque_append 100 message (message_history c);
     connected_at := connected_at c; last_message_at := last_message_at c |}.

Definition set_last_message_at (t : Timestamp) (c : ConnectedClient)
  : ConnectedClient :=
  {| client_id := client_id c; websocket := websocket c;
     subscribed_events := subscribed_events c;
     message_history := message_history c;
     connected_at := connected_at c; last_message_at := t |}.

Definition set_subscribed_events (s : gset string) (c : ConnectedClient)
  : ConnectedClient :=
  {| client_id := client_id c; websocket := websocket c;
     subscribed_events := s;
     message_history := message_history c;
     connected_at := connected_at c; last_message_at := last_message_at c |}.

(** [WebSocketManager.disconnect] *)
Definition disconnect (env : Env) (cid : string) : Py World unit :=
  w ← get;
  match PyDict.lookup cid (clients (self w)) with
  | Some client =>
      try_except (ws_close env (websocket client)) (λ _, mret tt);;
      modify (set_clients (PyDict.del cid));;
      log_ (LogDisconnected cid)
  | None => mret tt
  end.

(** [WebSocketManager.remove] *)
Definition remove (cid : string) : Py World unit :=
  w ← get;
  if PyDict.contains cid (clients (self w)) then
    modify (set_clients (PyDict.del cid));;
    log_ (LogRemoved cid)
  else mret tt.

(** [set(events) if events else {self.ALL_EVENTS}]: [None] and the empty
    list are both falsy. *)
Definition subscription_of (events : option (list string)) : gset string :=
  match events with
  | Some (e :: es) => list_to_set (e :: es)
  | Some [] | None => {[ ALL_EVENTS ]}
  end.

(** [WebSocketManager.connect] *)
Definition connect (env : Env) (ws : WebSocket) (cid : string)
    (events : option (list string)) : Py World ConnectedClient :=
  w ← get;
  (if PyDict.contains cid (clients (self w)) then
     log_ (LogReconnecting cid);;
     disconnect env cid
   else mret tt);;
  t_connected ← time_time env;
  t_last ← time_time env;
  let client :=
    {| client_id := cid; websocket := ws;
       subscribed_events := subscription_of events;
       message_history := [];
       connected_at := t_connected; last_message_at := t_last |} in
  modify (set_clients (PyDict.set cid client));;
  log_ (LogConnected cid (subscribed_events client));;
  mret client.

(** The test guarding the send in [broadcast] and counted by
    [get_subscriber_count]. *)
Definition is_subscribed (event_type : string) (client : ConnectedClient)
  : bool :=
  bool_decide (ALL_EVENTS ∈ subscribed_events client)
  || bool_decide (event_type ∈ subscribed_events client).

(** One iteration of the loop over [self.clients.items()] in
    [broadcast]; [disconnected] is the local list of that name. *)
Definition broadcast_body (env : Env) (event_type : string)
    (message : Message) (disconnected : list string)
    (item : string * ConnectedClient) : Py World (list string) :=
  let cid := item.1 in
  let client := item.2 in
  if is_subscribed event_type client then
    try_except
      (ws_send_json env cid (websocket client) message;;
       modify (set_clients (PyDict.update cid (history_append message)));;
       t ← time_time env;
       modify (set_clients (PyDict.update cid (set_last_message_at t)));;
       mret disconnected)
      (λ e,
         log_ (LogSendFailed cid e);;
         mret (disconnected ++ [cid]))
  else mret disconnected.

(** [WebSocketManager.broadcast] *)
Definition broadcast (env : Env) (event_type : string) (data : Json)
  : Py World unit :=
  ts ← time_time env;
  let message :=
    {| msg_type := event_type; msg_data := data; msg_timestamp := ts |} in
  w ← get;
  disconnected ←
    for_fold (broadcast_body env event_type message) [] (clients (self w));
  for_each remove disconnected.

(** [WebSocketManager.send_to_client] *)
Definition send_to_client (env : Env) (cid : string) (event_type : string)
    (data : Json) : Py World unit :=
  w ← get;
  match PyDict.lookup cid (clients (self w)) with
  | None => mret tt
  | Some client =>
      ts ← time_time env;
      let message :=
        {| msg_type := event_type; msg_data := data; msg_timestamp := ts |} in
      try_except
        (ws_send_json env cid (websocket client) message;;
         modify (set_clients (PyDict.update cid (history_append message)));;
         t ← time_time env;
         modify (set_clients (PyDict.update cid (set_last_message_at t))))
        (λ e,
           log_ (LogSendFailed cid e);;
           remove cid)
  end.

(** [WebSocketManager.update_subscriptions] *)
Definition update_subscriptions (cid : string) (events : list string)
  : Py World unit :=
  w ← get;
  if PyDict.contains cid (clients (self w)) then
    modify (set_clients
              (PyDict.update cid (set_subscribed_events (list_to_set events))));;
    log_ (LogSubscriptions cid events)
  else mret tt.

(** [WebSocketManager.get_client] *)
Definition get_client (m : WebSocketManager) (cid : string)
  : option ConnectedClient :=
  PyDict.lookup cid (clients m).

(** [WebSocketManager.get_subscriber_count] *)
Definition get_subscriber_count (m : WebSocketManager) (event_type : string)
  : nat :=
  length (filter (λ kv, is_subscribed event_type kv.2 = true) (clients m)).

(** [WebSocketManager.client_count] *)
Definition client_count (m : WebSocketManager) : nat := length (clients m).

(** The websocket calls a run added to the network history. *)
Definition new_effects (before after : World) : list Effect :=
  drop (length (net before)) (net after).

(** A call of [send_json] made for the registry entry [cid]. *)
Definition sent_to (cid : string) (ws : WebSocket) (message : Message)
    (evs : list Effect) : Prop :=
  ∃ r, EvSendJson cid ws message r ∈ evs.

(** A call of [send_json] for [cid] that raised. *)
Definition send_failed (cid : string) (evs : list Effect) : Prop :=
  ∃ ws message e, EvSendJson cid ws message (Some e) ∈ evs.

(** Some call of [send_json] was made for [cid]. *)
Definition targeted (cid : string) (evs : list Effect) : Prop :=
  ∃ ws message r, EvSendJson cid ws message r ∈ evs.

(** The registry keys whose [send_json] call raised, in call order. *)
Definition failed_sends (evs : list Effect) : list string :=
  omap (λ ev, match ev with
              | EvSendJson k _ _ (Some _) => Some k
              | _ => None
              end) evs.

(** [ev] is the [send_json] call the loop of [broadcast] makes for the
    registry entry [item]. *)
Definition is_send_for (message : Message) (item : string * ConnectedClient)
    (ev : Effect) : Prop :=
  ∃ r, ev = EvSendJson item.1 (websocket item.2) message r.

(** Two versions of one client object: same id, socket and subscriptions
    (the history and [last_message_at] may differ). *)
Definition same_identity (c c' : ConnectedClient) : Prop :=
  client_id c' = client_id c
  ∧ websocket c' = websocket c
  ∧ subscribed_events c' = subscribed_events c.

(** ** Test fixtures (tests/test_websocket_manager.py) *)

(** Websockets whose calls all succeed ([AsyncMock()]); the clock counts
    its readings. *)
Definition env_ok : Env :=
  {| send_json_raises := λ _ _ _, None;
     close_raises := λ _ _, None;
     clock := λ n, Z.of_nat n |}.

(** [send_json.side_effect = Exception("Connection lost")] on websocket 1. *)
Definition env_lost : Env :=
  {| send_json_raises := λ _ ws _,
       if decide (ws = 1) then Some (Exception_ "Exception" "Connection lost")
       else None;
     close_raises := λ _ _, None;
     clock := λ n, Z.of_nat n |}.

Definition world0 : World := {| self := init; net := []; ticks := 0 |}.

(** The store after [connect(ws1, "client-1", ["event-a"])] and
    [connect(ws2, "client-2")]. *)
Definition world2 : World :=
  (connect env_ok 2 "client-2" None
     (connect env_ok 1 "client-1" (Some ["event-a"]) world0).2).2.

Definition client1 : ConnectedClient :=
  {| client_id := "client-1"; websocket := 1;
     subscribed_events := {[ "event-a" ]};
     message_history := []; connected_at := 0%Z; last_message_at := 1%Z |}.

(** ** The remaining methods and what holds in every state *)

(** [WebSocketManager.get_all_clients]: a copy of the registry. *)
Definition get_all_clients (m : WebSocketManager)
  : list (string * ConnectedClient) :=
  clients m.

(** [WebSocketManager.get_client_history] *)
Definition get_client_history (m : WebSocketManager) (cid : string)
  : list Message :=
  match PyDict.lookup cid (clients m) with
  | Some client => message_history client
  | None => []
  end.

(** What the two statements after a successful [send_json] do to the
    client object: [message_history.append(message)] and
    [last_message_at = time.time()]. *)
Definition record_delivery (message : Message) (t : Timestamp)
    (c : ConnectedClient) : ConnectedClient :=
  set_last_message_at t (history_append message c).

(** A call of one of the manager's mutating methods. *)
Inductive Call : Type :=
| CallConnect (ws : WebSocket) (cid : string) (events : option (list string))
| CallDisconnect (cid : string)
| CallRemove (cid : string)
| CallBroadcast (event_type : string) (data : Json)
| CallSendToClient (cid : string) (event_type : string) (data : Json)
| CallUpdateSubscriptions (cid : string) (events : list string).

Definition run_call (env : Env) (c : Call) : Py World unit :=
  match c with
  | CallConnect ws cid events => connect env ws cid events;; mret tt
  | CallDisconnect cid => disconnect env cid
  | CallRemove cid => remove cid
  | CallBroadcast event_type data => broadcast env event_type data
  | CallSendToClient cid event_type data =>
      send_to_client env cid event_type data
  | CallUpdateSubscriptions cid events => update_subscriptions cid events
  end.

(** A sequence of method calls, one after the other. *)
Definition run_calls (env : Env) (cs : list Call) : Py World unit :=
  for_each (run_call env) cs.

(** An entry is filed under its own [client_id] and its history respects
    [maxlen=100]. *)
Definition entry_ok (kc : string * ConnectedClient) : Prop :=
  client_id kc.2 = kc.1 ∧ length (message_history kc.2) ≤ 100.

(** The registry has one entry per key and every entry is [entry_ok]. *)
Definition registry_ok (m : WebSocketManager) : Prop :=
  PyDict.wf (clients m) ∧ Forall entry_ok (clients m).

(** The [send_json] call of an effect, without its outcome. *)
Definition send_call (ev : Effect)
  : option (string * WebSocket * Message) :=
  match ev with
  | EvSendJson k ws m _ => Some (k, ws, m)
  | EvClose _ _ => None
  end.

End WSM.

(* ===================================================================== *)
(** * Event emitter (design §4.1)                                         *)
(* ===================================================================== *)

Module EventEmitter.
Import PyRt.

Section emitter.
(** The application state the handlers act on. *)
Context {S : Type}.

(** A registered handler: its identity and what running it on a payload
    does to the application state; it may raise. *)
Record Handler : Type := mkHandler {
  handler_id : nat;
  handler_run : Json → Py S unit;
}.

(** Modelled from the spec: the emitter's registry, which
    [event_emitter.py] holds, is "a mapping from event-kind to an ordered
    list of handler references" (§4.1, §9). *)
Record Emitter : Type := mkEmitter {
  handlers : gmap string (list Handler);
}.

(** The store an emission runs in: the application state and the log of
    caught handler errors. *)
Record EmitStore : Type := mkEmitStore {
  app : S;
  error_log : list (nat * PyExc);
}.

Definition handlers_for (kind : string) (em : Emitter) : list Handler :=
  default [] (handlers em !! kind).

(** Modelled from the spec: [register(event_kind, handler)] of
    [event_emitter.py] "adds handler to the ordered list for that kind
    (duplicates allowed)". *)
Definition register (kind : string) (h : Handler) (em : Emitter) : Emitter :=
  {| handlers := <[kind := handlers_for kind em ++ [h]]> (handlers em) |}.

(** An emitter on which nothing is registered. *)
Definition empty_emitter : Emitter := {| handlers := ∅ |}.

(** The emitter after the calls [register(kind, handler)] listed in
    [regs], made in that order. *)
Definition register_all (regs : list (string * Handler)) (em : Emitter)
  : Emitter :=
  foldl (λ em r, register r.1 r.2 em) em regs.

(** The handlers that the calls of [regs] register for [kind], in
    registration order. *)
Definition registered_for (kind : string) (regs : list (string * Handler))
  : list Handler :=
  (filter (λ r, r.1 = kind) regs).*2.

Fixpoint remove_first (hid : nat) (hs : list Handler) : list Handler :=
  match hs with
  | [] => []
  | h :: hs' =>
      if decide (handler_id h = hid) then hs' else h :: remove_first hid hs'
  end.

(** Modelled from the spec: [unregister(event_kind, handler)] of
    [event_emitter.py] "removes it if present (no-op otherwise, never
    fails)". *)
Definition unregister (kind : string) (h : Handler) (em : Emitter) : Emitter :=
  match handlers em !! kind with
  | Some hs =>
      {| handlers := <[kind := remove_first (handler_id h) hs]> (handlers em) |}
  | None => em
  end.

(** Running a handler: it acts on the application state only. *)
Definition invoke (h : Handler) (payload : Json) : Py EmitStore unit :=
  λ st,
    let '(r, a) := handler_run h payload (app st) in
    (r, {| app := a; error_log := error_log st |}).

Definition log_error (h : Handler) (e : PyExc) : Py EmitStore unit :=
  modify (λ st,
    {| app := app st; error_log := error_log st ++ [(handler_id h, e)] |}).

(** Modelled from the spec: [emit(event_kind, payload)] of
    [event_emitter.py] "invokes every registered handler for that kind;
    handlers run independently — a handler raising an error is caught,
    logged"; "emitting a kind with zero handlers is a no-op". *)
Definition emit (em : Emitter) (kind : string) (payload : Json)
  : Py EmitStore unit :=
  for_each (λ h, try_except (invoke h payload) (log_error h))
           (handlers_for kind em).

(** The application state after the handlers [hs] have run in order, each
    from the state its predecessor left, whether it raised or not. *)
Definition run_all (payload : Json) (hs : list Handler) (a : S) : S :=
  foldl (λ a h, (handler_run h payload a).2) a hs.

(** The handlers among [hs] that raise, with their exceptions, when run
    in order from [a]. *)
Fixpoint raised_by (payload : Json) (hs : list Handler) (a : S)
  : list (nat * PyExc) :=
  match hs with
  | [] => []
  | h :: hs' =>
      match handler_run h payload a with
      | (Raise e, a') => (handler_id h, e) :: raised_by payload hs' a'
      | (Ok _, a') => raised_by payload hs' a'
      end
  end.

End emitter.
Arguments Handler S : clear implicits.
Arguments Emitter S : clear implicits.
Arguments EmitStore S : clear implicits.

(** ** The scenario of [test_handler_error_isolation] *)

(** [failing_handler]: raises [RuntimeError("Boom")]. *)
Definition failing_handler : Handler (list Json) :=
  {| handler_id := 0;
     handler_run := λ _, raise (Exception_ "RuntimeError" "Boom") |}.

(** [success_handler]: [results.append(data)]. *)
Definition success_handler : Handler (list Json) :=
  {| handler_id := 1;
     handler_run := λ data, modify (λ results, results ++ [data]) |}.

Definition test_emitter : Emitter (list Json) :=
  register "test" success_handler
    (register "test" failing_handler empty_emitter).

End EventEmitter.

(* ===================================================================== *)
(** * Canonical state store and protocol bridge (design §3, §4.2, §4.3)   *)
(* ===================================================================== *)

Module Bridge.
Import PyRt.

(** Modelled from the spec: the enum [AIState] of [state.py] (§3). *)
Inductive AIState : Type := IDLE | THINKING | SPEAKING.

(** Modelled from the spec: the record [CharacterInfo] of [state.py]
    (§3). *)
Record CharacterInfo : Type := mkCharacter {
  id : string;
  name : string;
  creator_notes : string;
  text_gen_service : string;
}.

(** Modelled from the spec: the state record of [state.py], with the
    fields §3 lists for [CanonicalState]. *)
Record CanonicalState : Type := mkState {
  connected : bool;
  session_id : option string;
  chat_id : option string;
  chat_active : bool;
  ai_state : AIState;
  characters : gmap string CharacterInfo;
  current_speaker_id : option string;
  last_message_id : option string;
  last_message_text : option string;
  external_speaker_active : bool;
  external_speaker_source : option string;
}.

(** Modelled from the spec: the state a fresh [GatewayState()] of
    [state.py] holds: nothing connected, no chat, IDLE. *)
Definition initial_state : CanonicalState :=
  {| connected := false; session_id := None; chat_id := None;
     chat_active := false; ai_state := IDLE; characters := ∅;
     current_speaker_id := None; last_message_id := None;
     last_message_text := None; external_speaker_active := false;
     external_speaker_source := None |}.

(** Modelled from the spec: the mutator [set_ready] behind the table row
    "ready | set connected, session_id" (§4.3). *)
Definition set_ready (sid : string) (s : CanonicalState) : CanonicalState :=
  {| connected := true; session_id := Some sid; chat_id := chat_id s;
     chat_active := chat_active s; ai_state := ai_state s;
     characters := characters s; current_speaker_id := current_speaker_id s;
     last_message_id := last_message_id s;
     last_message_text := last_message_text s;
     external_speaker_active := external_speaker_active s;
     external_speaker_source := external_speaker_source s |}.

Definition characters_of (participants : list CharacterInfo)
  : gmap string CharacterInfo :=
  list_to_map ((λ c, (id c, c)) <$> participants).

(** Modelled from the spec: [set_chat_started(chat_id, characters)] of
    [state.py] (§4.2); "[chat_active] true ⟺ [chat_id] is set" (§3). *)
Definition set_chat_started (cid : string) (participants : list CharacterInfo)
    (s : CanonicalState) : CanonicalState :=
  {| connected := connected s; session_id := session_id s;
     chat_id := Some cid; chat_active := true; ai_state := ai_state s;
     characters := characters_of participants;
     current_speaker_id := current_speaker_id s;
     last_message_id := last_message_id s;
     last_message_text := last_message_text s;
     external_speaker_active := external_speaker_active s;
     external_speaker_source := external_speaker_source s |}.

(** Modelled from the spec: [set_chat_closed()] of [state.py] (§4.2);
    "closing a chat clears [characters], [chat_id], [chat_active],
    [current_speaker_id]" (§3). *)
Definition set_chat_closed (s : CanonicalState) : CanonicalState :=
  {| connected := connected s; session_id := session_id s;
     chat_id := None; chat_active := false; ai_state := ai_state s;
     characters := ∅; current_speaker_id := None;
     last_message_id := last_message_id s;
     last_message_text := last_message_text s;
     external_speaker_active := external_speaker_active s;
     external_speaker_source := external_speaker_source s |}.

(** Modelled from the spec: [set_speaker(id)] of [state.py] (§4.2). *)
Definition set_speaker (speaker : option string) (s : CanonicalState)
  : CanonicalState :=
  {| connected := connected s; session_id := session_id s;
     chat_id := chat_id s; chat_active := chat_active s;
     ai_state := ai_state s; characters := characters s;
     current_speaker_id := speaker;
     last_message_id := last_message_id s;
     last_message_text := last_message_text s;
     external_speaker_active := external_speaker_active s;
     external_speaker_source := external_speaker_source s |}.

(** Modelled from the spec: [set_ai_state(new_state)] of [state.py]
    (§4.2).  The mutators "enforce the invariants in §3", of which
    "returning to IDLE clears [current_speaker_id]" is the one a change of
    [ai_state] can enforce; entering SPEAKING has no speaker to put in
    place and leaves the field as it is. *)
Definition set_ai_state (new_state : AIState) (s : CanonicalState)
  : CanonicalState :=
  {| connected := connected s; session_id := session_id s;
     chat_id := chat_id s; chat_active := chat_active s;
     ai_state := new_state; characters := characters s;
     current_speaker_id :=
       match new_state with
       | IDLE => None
       | _ => current_speaker_id s
       end;
     last_message_id := last_message_id s;
     last_message_text := last_message_text s;
     external_speaker_active := external_speaker_active s;
     external_speaker_source := external_speaker_source s |}.

Definition set_last_message_id (mid : string) (s : CanonicalState)
  : CanonicalState :=
  {| connected := connected s; session_id := session_id s;
     chat_id := chat_id s; chat_active := chat_active s;
     ai_state := ai_state s; characters := characters s;
     current_speaker_id := current_speaker_id s;
     last_message_id := Some mid;
     last_message_text := last_message_text s;
     external_speaker_active := external_speaker_active s;
     external_speaker_source := external_speaker_source s |}.

Definition set_last_message_text (text : string) (s : CanonicalState)
  : CanonicalState :=
  {| connected := connected s; session_id := session_id s;
     chat_id := chat_id s; chat_active := chat_active s;
     ai_state := ai_state s; characters := characters s;
     current_speaker_id := current_speaker_id s;
     last_message_id := last_message_id s;
     last_message_text := Some text;
     external_speaker_active := external_speaker_active s;
     external_speaker_source := external_speaker_source s |}.

Definition merge_characters (participants : list CharacterInfo)
    (s : CanonicalState) : CanonicalState :=
  {| connected := connected s; session_id := session_id s;
     chat_id := chat_id s; chat_active := chat_active s;
     ai_state := ai_state s;
     characters := characters_of participants ∪ characters s;
     current_speaker_id := current_speaker_id s;
     last_message_id := last_message_id s;
     last_message_text := last_message_text s;
     external_speaker_active := external_speaker_active s;
     external_speaker_source := external_speaker_source s |}.

(** Modelled from the spec: the raw upstream signals [voxta_bridge.py]
    handles, one per row of the translation table (§4.3). *)
Inductive RawEvent : Type :=
| RawReady (sid : string)
| RawChatStarted (cid : string) (participants : list CharacterInfo)
| RawChatClosed
| RawReplyGenerating
| RawReplyStart (message_id sender_id : string)
| RawReplyChunk (message_id sender_id : string) (text : string)
                (start_index : nat)
| RawReplyEnd (message_id : string)
| RawReplyCancelled (message_id : string)
| RawSpeechPlaybackStart
| RawSpeechPlaybackComplete
| RawParticipantsUpdated (participants : list CharacterInfo)
| RawMessage (text : string)
| RawMessageUpdate (text : string)
| RawInterruptSpeech
| RawAction (action_name : string) (arguments : list (string * string)).

(** Modelled from the spec: the canonical events [voxta_bridge.py]
    publishes (§6). *)
Inductive CanonicalEvent : Type :=
| EvReady (sid : string)
| EvChatStarted (cid : string) (participants : list CharacterInfo)
| EvChatClosed
| EvAiStateChanged (old_state new_state : AIState)
| EvAppTrigger (trigger_name : string) (arguments : list (string * string)).

(** What the bridge asks of the sentence reassembly buffer. *)
Inductive BufferCommand : Type :=
| BufFeed (message_id character_id : string) (text : string)
          (start_index : nat)
| BufFlush (message_id : string)
| BufDiscard (message_id : string).

(** The outcome of translating one raw event. *)
Record Translation : Type := mkTranslation {
  new_state : CanonicalState;
  published : list CanonicalEvent;
  to_buffer : list BufferCommand;
}.

(** Modelled from the spec: the raw-event handlers of [voxta_bridge.py],
    row by row from the translation table of §4.3: the state mutation,
    the canonical event if any, and what goes to the sentence buffer. *)
Definition handle_raw (ev : RawEvent) (s : CanonicalState) : Translation :=
  match ev with
  | RawReady sid =>
      mkTranslation (set_ready sid s) [EvReady sid] []
  | RawChatStarted cid ps =>
      mkTranslation (set_chat_started cid ps s) [EvChatStarted cid ps] []
  | RawChatClosed =>
      mkTranslation (set_chat_closed s) [EvChatClosed] []
  | RawReplyGenerating =>
      mkTranslation (set_ai_state THINKING s)
                    [EvAiStateChanged (ai_state s) THINKING] []
  | RawReplyStart mid sender =>
      mkTranslation (set_speaker (Some sender) (set_last_message_id mid s))
                    [] []
  | RawReplyChunk mid sender text start =>
      mkTranslation s [] [BufFeed mid sender text start]
  | RawReplyEnd mid =>
      mkTranslation s [] [BufFlush mid]
  | RawReplyCancelled mid =>
      mkTranslation (set_ai_state IDLE s) [] [BufDiscard mid]
  | RawSpeechPlaybackStart =>
      mkTranslation (set_ai_state SPEAKING s)
                    [EvAiStateChanged (ai_state s) SPEAKING] []
  | RawSpeechPlaybackComplete =>
      mkTranslation (set_speaker None (set_ai_state IDLE s))
                    [EvAiStateChanged (ai_state s) IDLE] []
  | RawParticipantsUpdated ps =>
      mkTranslation (merge_characters ps s) [] []
  | RawMessage text | RawMessageUpdate text =>
      mkTranslation (set_last_message_text text s) [] []
  | RawInterruptSpeech =>
      mkTranslation (set_ai_state IDLE s) [] []
  | RawAction n args =>
      mkTranslation s [EvAppTrigger n args] []
  end.

(** The bridge's receive loop over a stream of raw events: the final
    state and everything published on the way. *)
Fixpoint run_raw (evs : list RawEvent) (s : CanonicalState)
  : CanonicalState * list CanonicalEvent :=
  match evs with
  | [] => (s, [])
  | ev :: evs' =>
      let t := handle_raw ev s in
      let '(s', out) := run_raw evs' (new_state t) in
      (s', published t ++ out)
  end.

(** The states the bridge can bring the store to. *)
Definition reachable (s : CanonicalState) : Prop :=
  ∃ evs, (run_raw evs initial_state).1 = s.

(** What a subscriber to [ai_state_changed] sees: the successive
    [new_state] values. *)
Definition observed_ai_states (out : list CanonicalEvent) : list AIState :=
  omap (λ ev, match ev with
              | EvAiStateChanged _ new => Some new
              | _ => None
              end) out.

(** ** Outbound operations (§4.3, §6) *)

Inductive OutboundOp : Type :=
| OpInterrupt
| OpSendMessage (text : string)
| OpUpdateContext (key contents : string)
| OpSpeechPlaybackStart (message_id : string)
| OpSpeechPlaybackComplete (message_id : string)
| OpCharacterSpeechRequest (character_id text : string).

(** The bridge with its upstream side: the canonical state and the
    calls sent upstream so far, each keyed by the session id it used. *)
Record BridgeStore : Type := mkBridgeStore {
  state : CanonicalState;
  sent_upstream : list (string * OutboundOp);
}.

(** Modelled from the spec: the [SessionNotReadyError] that
    [voxta_bridge.py] raises (§7). *)
Definition SessionNotReadyError : PyExc :=
  Exception_ "SessionNotReadyError" "no session established".

(** Modelled from the spec: the session check shared by the outbound
    operations of [voxta_bridge.py]; they are "keyed by the current
    session_id" and fail "with a session-not-ready condition" without one
    (§4.3). *)
Definition require_session : Py BridgeStore string :=
  b ← get;
  match session_id (state b) with
  | Some sid => mret sid
  | None => raise SessionNotReadyError
  end.

(** The call on the upstream client; [transport_raises] says whether the
    transport fails it. *)
Definition upstream_call
    (transport_raises : list (string * OutboundOp) → option PyExc)
    (sid : string) (op : OutboundOp) : Py BridgeStore unit :=
  b ← get;
  match transport_raises (sent_upstream b) with
  | Some e => raise e
  | None =>
      modify (λ b, {| state := state b;
                      sent_upstream := sent_upstream b ++ [(sid, op)] |})
  end.

(** Modelled from the spec: the body every outbound operation of
    [voxta_bridge.py] shares, "thin authenticated calls keyed by the
    current session_id" (§4.3). *)
Definition outbound
    (transport_raises : list (string * OutboundOp) → option PyExc)
    (op : OutboundOp) : Py BridgeStore unit :=
  sid ← require_session;
  upstream_call transport_raises sid op.

Section operations.
Variable transport_raises : list (string * OutboundOp) → option PyExc.

Definition interrupt : Py BridgeStore unit :=
  outbound transport_raises OpInterrupt.

Definition send_message (text : string) : Py BridgeStore unit :=
  outbound transport_raises (OpSendMessage text).

Definition update_context (key contents : string) : Py BridgeStore unit :=
  outbound transport_raises (OpUpdateContext key contents).

Definition speech_playback_start (mid : string) : Py BridgeStore unit :=
  outbound transport_raises (OpSpeechPlaybackStart mid).

Definition speech_playback_complete (mid : string) : Py BridgeStore unit :=
  outbound transport_raises (OpSpeechPlaybackComplete mid).

Definition character_speech_request (cid text : string)
  : Py BridgeStore unit :=
  outbound transport_raises (OpCharacterSpeechRequest cid text).

(** The operation the bridge runs for each request of its callers. *)
Definition perform (op : OutboundOp) : Py BridgeStore unit :=
  match op with
  | OpInterrupt => interrupt
  | OpSendMessage text => send_message text
  | OpUpdateContext key contents => update_context key contents
  | OpSpeechPlaybackStart mid => speech_playback_start mid
  | OpSpeechPlaybackComplete mid => speech_playback_complete mid
  | OpCharacterSpeechRequest cid text => character_speech_request cid text
  end.
End operations.

(** A transport that never fails. *)
Definition transport_ok : list (string * OutboundOp) → option PyExc :=
  λ _, None.

Definition fresh_bridge : BridgeStore :=
  {| state := initial_state; sent_upstream := [] |}.

(** A state with a chat and a speaker, for the examples. *)
Definition apex : CharacterInfo :=
  {| id := "char-1"; name := "Apex"; creator_notes := "Notes";
     text_gen_service := "Service" |}.

Definition state_in_chat : CanonicalState :=
  (run_raw [RawReady "session-123"; RawChatStarted "chat-123" [apex];
            RawReplyGenerating; RawReplyStart "msg-1" "char-1"]
           initial_state).1.

End Bridge.

(* ===================================================================== *)
(** * Sentence reassembly buffer (design §3, §4.4)                        *)
(* ===================================================================== *)

Module SentenceBuffer.

(** Reply text as the sequence of its characters; offsets count
    characters. *)
Abbreviation Text := (list ascii) (only parsing).

Definition text (s : string) : Text := list_ascii_of_string s.

(** Modelled from the spec: the per-reply record of [sentence_buffer.py],
    [SentenceAccumulator] of §3: the "pending text keyed by start
    offset", the confirmed prefix (its length is the "next expected
    offset"), the scanned marker of §4.4 and the "emitted sentence
    count"; [character_id] is what [sentence_ready] reports. *)
Record SentenceAccumulator : Type := mkAccumulator {
  character_id : string;
  pending : gmap nat Text;
  confirmed : Text;
  scanned : nat;
  emitted_count : nat;
}.

(** The payload of [sentence_ready] (§6). *)
Record SentenceReady : Type := mkSentenceReady {
  sr_text : Text;
  sr_character_id : string;
  sr_message_id : string;
}.

Definition next_offset (acc : SentenceAccumulator) : nat :=
  length (confirmed acc).

Definition new_accumulator (cid : string) : SentenceAccumulator :=
  {| character_id := cid; pending := ∅; confirmed := [];
     scanned := 0; emitted_count := 0 |}.

(** Sentence-terminal punctuation: [.], [!], [?]. *)
Definition is_terminal (c : ascii) : bool :=
  bool_decide (c = "."%char) || bool_decide (c = "!"%char)
  || bool_decide (c = "?"%char).

(** Whitespace: blank, tab, line feed, vertical tab, form feed, carriage
    return. *)
Definition is_space (c : ascii) : bool :=
  let n := nat_of_ascii c in
  bool_decide (n = 32) || bool_decide (9 ≤ n ≤ 13).

(** Modelled from the spec: the boundary test of the scan of
    [sentence_buffer.py].  While chunks arrive, a sentence boundary lies
    after [c] when [c] is terminal punctuation followed by whitespace
    (§4.4).  §4.4 also names the mark at the end of the confirmed prefix;
    in Scenario A of §8 the buffer holds ["Bye."] until [reply_end], so a
    mark with nothing after it yet waits for the next character, and it
    is [flush] that closes the sentence when none comes. *)
Definition boundary_after (c : ascii) (rest : Text) : bool :=
  is_terminal c
  && match rest with
     | [] => false
     | d :: _ => is_space d
     end.

(** The whitespace at the start of a span. *)
Fixpoint trim_left (t : Text) : Text :=
  match t with
  | [] => []
  | c :: rest => if is_space c then trim_left rest else c :: rest
  end.

(** Modelled from the spec: a span without the whitespace around it, which
    is what Scenario A of §8 shows of an emitted sentence. *)
Definition trim (t : Text) : Text :=
  reverse (trim_left (reverse (trim_left t))).

(** A text without any of its whitespace. *)
Definition nospace (t : Text) : Text :=
  filter (λ c, is_space c = false) t.

(** Modelled from the spec: the scan of [sentence_buffer.py] over the
    confirmed text beyond the scanned marker: "for each boundary found,
    emit the delimited span as a completed sentence [...] Text after the
    last boundary remains pending" (§4.4).  [cur] is the span read since
    the last boundary; the result is the completed spans, each ending in
    its terminal mark, and the text left pending. *)
Fixpoint scan (cur : Text) (txt : Text) : list Text * Text :=
  match txt with
  | [] => ([], cur)
  | c :: rest =>
      if boundary_after c rest then
        let '(sentences, remaining) := scan [] rest in
        ((cur ++ [c]) :: sentences, remaining)
      else scan (cur ++ [c]) rest
  end.

(** Modelled from the spec: the extension of the confirmed prefix in
    [sentence_buffer.py]: "a fragment at offset O only extends the
    confirmed prefix if O equals the current confirmed length" and the
    held fragments are "re-checked as later fragments arrive" (§4.4).
    Every round takes one fragment out of [pend], so [size pend] rounds
    are enough. *)
Fixpoint extend (rounds : nat) (pend : gmap nat Text) (conf : Text)
  : gmap nat Text * Text :=
  match rounds with
  | 0 => (pend, conf)
  | S rounds' =>
      match pend !! length conf with
      | Some t => extend rounds' (delete (length conf) pend) (conf ++ t)
      | None => (pend, conf)
      end
  end.

(** Modelled from the spec: the body of [process_chunk] in
    [sentence_buffer.py] for a chunk whose offset is not yet confirmed:
    "insert by offset; then attempt to extend a contiguous confirmed
    prefix", scan it beyond the marker and "advance the scanned marker
    past" the sentences found (§4.4). *)
Definition accept_chunk (start_index : nat) (t : Text)
    (acc : SentenceAccumulator) : SentenceAccumulator * list Text :=
  let pend := <[start_index := t]> (pending acc) in
  let '(pend', conf') := extend (size pend) pend (confirmed acc) in
  let '(sentences, _) := scan [] (drop (scanned acc) conf') in
  ({| character_id := character_id acc;
      pending := pend'; confirmed := conf';
      scanned := scanned acc + length (concat sentences);
      emitted_count := emitted_count acc + length sentences |},
   sentences).

(** Modelled from the spec: the [sentence_ready] callbacks of
    [sentence_buffer.py] for a list of spans.  A sentence is emitted
    without the whitespace around it: in Scenario A of §8 the reply
    ["Hello world. Bye."] is emitted as ["Hello world."] and ["Bye."]. *)
Definition announce (mid cid : string) (spans : list Text)
  : list SentenceReady :=
  (λ s, {| sr_text := trim s; sr_character_id := cid; sr_message_id := mid |})
    <$> spans.

(** Modelled from the spec: [process_chunk(message_id, character_id,
    text, start_index)] of [sentence_buffer.py].  The accumulator is
    "created on first chunk for a message_id" (§3); "duplicate chunks at
    an already-confirmed offset are ignored" (§4.4).  The result is the
    new buffer and the [sentence_ready] callbacks made, in order. *)
Definition process_chunk (mid cid : string) (t : Text) (start_index : nat)
    (buf : gmap string SentenceAccumulator)
  : gmap string SentenceAccumulator * list SentenceReady :=
  let acc := default (new_accumulator cid) (buf !! mid) in
  if decide (start_index < next_offset acc) then (buf, [])
  else
    let '(acc', sentences) := accept_chunk start_index t acc in
    (<[mid := acc']> buf, announce mid (character_id acc') sentences).

(** Modelled from the spec: [flush(message_id)] of [sentence_buffer.py],
    run on [reply_end]: "emit any remaining pending confirmed text as a
    final sentence even without terminal punctuation, then destroy the
    accumulator" (§4.4).  What remains is emitted as the spans are,
    without the whitespace around it, and whitespace alone is no
    sentence. *)
Definition flush (mid : string) (buf : gmap string SentenceAccumulator)
  : gmap string SentenceAccumulator * list SentenceReady :=
  match buf !! mid with
  | None => (buf, [])
  | Some acc =>
      let remaining := drop (scanned acc) (confirmed acc) in
      (delete mid buf,
       match trim remaining with
       | [] => []
       | _ => announce mid (character_id acc) [remaining]
       end)
  end.

(** Modelled from the spec: [clear(message_id)] of [sentence_buffer.py],
    run on [reply_cancelled]: "destroy the accumulator without emitting
    its pending text" (§4.4). *)
Definition clear (mid : string) (buf : gmap string SentenceAccumulator)
  : gmap string SentenceAccumulator :=
  delete mid buf.

(** Delivering a sequence of chunks of one reply, in the given order. *)
Fixpoint deliver (mid cid : string) (chunks : list (nat * Text))
    (buf : gmap string SentenceAccumulator)
  : gmap string SentenceAccumulator * list SentenceReady :=
  match chunks with
  | [] => (buf, [])
  | (o, t) :: rest =>
      let '(buf1, out1) := process_chunk mid cid t o buf in
      let '(buf2, out2) := deliver mid cid rest buf1 in
      (buf2, out1 ++ out2)
  end.

(** A whole reply: its chunks in delivery order, then [reply_end]. *)
Definition deliver_reply (mid cid : string) (chunks : list (nat * Text))
    (buf : gmap string SentenceAccumulator)
  : gmap string SentenceAccumulator * list SentenceReady :=
  let '(buf1, out1) := deliver mid cid chunks buf in
  let '(buf2, out2) := flush mid buf1 in
  (buf2, out1 ++ out2).

(** The chunks that cut a reply into [pieces] contiguously from offset
    [o]: each starts where the previous one ends. *)
Fixpoint chunks_from (o : nat) (pieces : list Text) : list (nat * Text) :=
  match pieces with
  | [] => []
  | p :: ps => (o, p) :: chunks_from (o + length p) ps
  end.

(** The offset at which the [j]-th piece starts. *)
Definition offset_of (pieces : list Text) (j : nat) : nat :=
  length (concat (take j pieces)).

(** The emitted text, in emission order. *)
Definition emitted_text (out : list SentenceReady) : Text :=
  concat (sr_text <$> out).

(** ** Invariants of the reassembly *)

(** After the chunks [delivered], all of them chunks of [pieces]: the
    confirmed text is the first [k] pieces; a delivered chunk is either
    among those or held under its offset; and only chunks of [pieces] are
    held. *)
Definition reassembled (pieces : list Text) (delivered : list (nat * Text))
    (k : nat) (pend : gmap nat Text) (conf : Text) : Prop :=
  k ≤ length pieces
  ∧ conf = concat (take k pieces)
  ∧ (∀ j p, pieces !! j = Some p → (offset_of pieces j, p) ∈ delivered →
       j < k ∨ pend !! offset_of pieces j = Some p)
  ∧ (∀ o t, pend !! o = Some t →
       ∃ j, pieces !! j = Some t ∧ o = offset_of pieces j).

(** The sentences [out] emitted so far are the confirmed text up to the
    scanned marker. *)
Definition emitted_upto (out : list Text) (acc : SentenceAccumulator) : Prop :=
  scanned acc = length (concat out)
  ∧ ∃ remaining, confirmed acc = concat out ++ remaining.

(** The accumulator after the chunks [delivered] and the sentences [out]:
    reassembled, extended as far as the held fragments allow, and
    scanned. *)
Definition tracks (pieces : list Text) (delivered : list (nat * Text))
    (out : list Text) (acc : SentenceAccumulator) : Prop :=
  (∃ k, reassembled pieces delivered k (pending acc) (confirmed acc))
  ∧ pending acc !! length (confirmed acc) = None
  ∧ emitted_upto out acc.

(** No two pieces start at the same offset. *)
Definition distinct_offsets (pieces : list Text) : Prop :=
  ∀ i j, i < length pieces → j < length pieces →
         offset_of pieces i = offset_of pieces j → i = j.

(** ** Scenarios of §8 *)

Definition scenario_pieces : list Text :=
  [text "Hello "; text "world. "; text "Bye."].

(** Scenario A: offsets 6, 0, 13. *)
Definition scenario_a_delivery : list (nat * Text) :=
  [(6, text "world. "); (0, text "Hello "); (13, text "Bye.")].

(** Scenario C: the buffer after the chunk at offset 0. *)
Definition scenario_c_buffer : gmap string SentenceAccumulator :=
  (process_chunk "m1" "c1" (text "Hello ") 0 ∅).1.

Definition scenario_c_accumulator : SentenceAccumulator :=
  {| character_id := "c1"; pending := ∅; confirmed := text "Hello ";
     scanned := 0; emitted_count := 0 |}.

(** A reply cut into three pieces of which the second is empty, so that
    the second and the third start at the same offset, delivered last
    piece first. *)
Definition empty_piece_reply : list Text :=
  [text "a"; []; text "b"].

Definition empty_piece_delivery : list (nat * Text) :=
  [(1, text "b"); (1, []); (0, text "a")].

End SentenceBuffer.

(* ===================================================================== *)
(** * The websocket manager's broadcast as a task                        *)
(* ===================================================================== *)

Module WSMAsync.
Import PyRt WSM.

(** What a raise carries when a method runs as a task of the event loop:
    an instance of [Exception], or [asyncio.CancelledError], which derives
    from [BaseException] and not from [Exception] (Python 3.8 and later;
    the annotations of [websocket_manager.py] need 3.10) and is raised at the [await]
    where a cancelled task is resumed. *)
Inductive PyRaised : Type :=
| AnException (e : PyExc)
| CancelledError.

(** The outcome of a statement of a task. *)
Inductive TaskRes (A : Type) : Type :=
| Returned (a : A)
| Raised (r : PyRaised).
Arguments Returned {A} a.
Arguments Raised {A} r.

(** Statements that may await, over the store [Σ]. *)
Definition Task (Σ A : Type) : Type := Σ → TaskRes A * Σ.

Definition task_ret {Σ A} (a : A) : Task Σ A := λ s, (Returned a, s).

Definition task_bind {Σ A B} (c : Task Σ A) (f : A → Task Σ B) : Task Σ B :=
  λ s, match c s with
       | (Returned a, s') => f a s'
       | (Raised r, s') => (Raised r, s')
       end.

(** Statements without an [await] run in a task as they do on their own:
    no other task runs in between. *)
Definition atomically {Σ A} (c : Py Σ A) : Task Σ A :=
  λ s, match c s with
       | (Ok a, s') => (Returned a, s')
       | (Raise e, s') => (Raised (AnException e), s')
       end.

(** [try: body  except Exception as e: handler e] in a task:
    [CancelledError] is not an [Exception] and passes through. *)
Definition try_except_exception {Σ A} (body : Task Σ A)
    (handler : PyExc → Task Σ A) : Task Σ A :=
  λ s, match body s with
       | (Raised (AnException e), s') => handler e s'
       | r => r
       end.

(** What the event loop does while a task is suspended at an [await] of
    [send_json]; both may depend on the calls made on the network so far.
    [cancelled]: the task is cancelled and resumed with [CancelledError].
    [meanwhile]: another task runs [disconnect(client_id)] for the given
    id from start to end before this one is resumed. *)
Record Schedule : Type := mkSchedule {
  cancelled : list Effect → bool;
  meanwhile : list Effect → option string;
}.

(** The task is never cancelled and no other task touches the registry
    while it is suspended. *)
Definition quiet (sch : Schedule) : Prop :=
  ∀ evs, cancelled sch evs = false ∧ meanwhile sch evs = None.

Definition schedule_quiet : Schedule :=
  {| cancelled := λ _, false; meanwhile := λ _, None |}.

(** [await websocket.send_json(message)] in a task.  The call is recorded
    with what the websocket did; the cancellation comes from the event
    loop. *)
Definition await_send_json (env : Env) (sch : Schedule) (via : string)
    (ws : WebSocket) (message : Message) : Task World unit :=
  λ w,
    let r := send_json_raises env (net w) ws message in
    let w1 := record_effect (EvSendJson via ws message r) w in
    let w2 := match meanwhile sch (net w) with
              | Some other => (disconnect env other w1).2
              | None => w1
              end in
    if cancelled sch (net w) then (Raised CancelledError, w2)
    else match r with
         | None => (Returned tt, w2)
         | Some e => (Raised (AnException e), w2)
         end.

(** What the iterator of a [dict] raises when the [dict] has gained or
    lost a key since the iteration began. *)
Definition changed_size : PyExc :=
  Exception_ "RuntimeError" "dictionary changed size during iteration".

(** [for client_id, client in self.clients.items(): acc = body acc item]
    with a body that awaits.  The iterator reads [self.clients] as it is
    at each step: a step, the one that ends the loop included, raises
    [RuntimeError] unless the [dict] has the size it had when the loop
    began, and otherwise takes the entry at the iterator's position.
    [size] is the size at the start, [todo] the number of entries not yet
    visited, [pos] the position. *)
Fixpoint items_loop {B} (size todo pos : nat)
    (body : B → string * ConnectedClient → Task World B) (acc : B)
    (w : World) {struct todo} : TaskRes B * World :=
  if decide (length (clients (self w)) = size) then
    match todo, clients (self w) !! pos with
    | S todo', Some item =>
        task_bind (body acc item) (items_loop size todo' (S pos) body) w
    | _, _ => (Returned acc, w)
    end
  else (Raised (AnException changed_size), w).

(** One iteration of the loop of [broadcast], in a task. *)
Definition task_broadcast_body (env : Env) (sch : Schedule)
    (event_type : string) (message : Message) (disconnected : list string)
    (item : string * ConnectedClient) : Task World (list string) :=
  let cid := item.1 in
  let client := item.2 in
  if is_subscribed event_type client then
    try_except_exception
      (task_bind (await_send_json env sch cid (websocket client) message)
         (λ _, atomically
                 (modify (set_clients
                            (PyDict.update cid (history_append message)));;
                  t ← time_time env;
                  modify (set_clients
                            (PyDict.update cid (set_last_message_at t)));;
                  mret disconnected)))
      (λ e, atomically (log_ (LogSendFailed cid e);;
                        mret (disconnected ++ [cid])))
  else task_ret disconnected.

(** [WebSocketManager.broadcast], run as a task among others. *)
Definition task_broadcast (env : Env) (sch : Schedule) (event_type : string)
    (data : Json) : Task World unit :=
  task_bind (atomically (time_time env)) (λ ts,
    let message :=
      {| msg_type := event_type; msg_data := data; msg_timestamp := ts |} in
    task_bind (atomically get) (λ w,
      let size := length (clients (self w)) in
      task_bind
        (items_loop size size 0
           (task_broadcast_body env sch event_type message) [])
        (λ disconnected, atomically (for_each remove disconnected)))).

(** The [send_json] calls among [evs] are made for keys among [ks]. *)
Definition sends_within (evs : list Effect) (ks : list string) : Prop :=
  ∀ via ws m r, EvSendJson via ws m r ∈ evs → via ∈ ks.

(** ** Two schedules for the broadcast of ["event-a"] to [world2] *)

(** The task is cancelled while it awaits the [send_json] of the second
    client; nothing has been sent before on this network but the first
    client's message. *)
Definition schedule_cancel_second : Schedule :=
  {| cancelled := λ evs, bool_decide (length evs = 1);
     meanwhile := λ _, None |}.

(** While the task awaits the [send_json] of the first client, another
    task disconnects ["client-2"]. *)
Definition schedule_disconnect_other : Schedule :=
  {| cancelled := λ _, false;
     meanwhile := λ evs,
       if bool_decide (length evs = 0) then Some "client-2" else None |}.

End WSMAsync.



Module PyRtFacts.
Import PyRt.

Lemma bind_run {Σ A B} (c : Py Σ A) (f : A → Py Σ B) s :
  (c ≫= f) s =
  match c s with
  | (Ok a, s') => f a s'
  | (Raise e, s') => (Raise e, s')
  end.
Proof. reflexivity. Qed.

Lemma bind_ok {Σ A B} (c : Py Σ A) (f : A → Py Σ B) s a s' :
  c s = (Ok a, s') → (c ≫= f) s = f a s'.
Proof. intros H. rewrite bind_run, H. reflexivity. Qed.

Lemma bind_raise {Σ A B} (c : Py Σ A) (f : A → Py Σ B) s e s' :
  c s = (Raise e, s') → (c ≫= f) s = (Raise e, s').
Proof. intros H. rewrite bind_run, H. reflexivity. Qed.

Lemma get_run {Σ} (s : Σ) : get s = (Ok s, s).
Proof. reflexivity. Qed.

Lemma try_except_ok {Σ A} (body : Py Σ A) h s a s' :
  body s = (Ok a, s') → try_except body h s = (Ok a, s').
Proof. intros H. unfold try_except. rewrite H. reflexivity. Qed.

Lemma try_except_raise {Σ A} (body : Py Σ A) h s e s' :
  body s = (Raise e, s') → try_except body h s = h e s'.
Proof. intros H. unfold try_except. rewrite H. reflexivity. Qed.

Section dict_facts.
Context {V : Type}.
Implicit Types (d : list (string * V)) (k : string) (v : V).

Lemma lookup_Some_elem k v d : PyDict.lookup k d = Some v → (k, v) ∈ d.
Proof.
  induction d as [|[k' v'] d IH]; csimpl; [done|].
  case_decide; intros Hl; simplify_eq.
  - left.
  - right. auto.
Qed.

Lemma lookup_None_keys k d : PyDict.lookup k d = None ↔ k ∉ PyDict.keys d.
Proof.
  unfold PyDict.keys.
  induction d as [|[k' v'] d IH]; csimpl.
  - split; [intros _; apply not_elem_of_nil | done].
  - case_decide; subst.
    + split; [done | intros Hn; exfalso; apply Hn; left].
    + rewrite IH, not_elem_of_cons. split; [intros Hn; split; [congruence | done] | intros [_ Hn]; done].
Qed.

Lemma lookup_is_Some_keys k d : is_Some (PyDict.lookup k d) ↔ k ∈ PyDict.keys d.
Proof.
  destruct (PyDict.lookup k d) eqn:E.
  - split; [intros _ | eauto].
    apply lookup_Some_elem in E. unfold PyDict.keys.
    apply list_elem_of_fmap. by exists (k, v).
  - apply lookup_None_keys in E. split; [intros [? ?]; done | done].
Qed.

Lemma elem_lookup_wf k v d : PyDict.wf d → (k, v) ∈ d → PyDict.lookup k d = Some v.
Proof.
  unfold PyDict.wf, PyDict.keys.
  induction d as [|[k' v'] d IH]; csimpl; intros Hwf Hin.
  - by apply elem_of_nil in Hin.
  - apply NoDup_cons in Hwf as [Hk Hwf].
    apply elem_of_cons in Hin as [Heq | Hin].
    + simplify_eq. by rewrite decide_True.
    + case_decide; [|by apply IH].
      subst. exfalso. apply Hk. apply list_elem_of_fmap. by exists (k, v).
Qed.

Lemma contains_true k d : PyDict.contains k d = true ↔ is_Some (PyDict.lookup k d).
Proof.
  unfold PyDict.contains. destruct (PyDict.lookup k d); split; try done; eauto.
Qed.

Lemma lookup_del k k' d :
  PyDict.lookup k' (PyDict.del k d) = if decide (k = k') then None else PyDict.lookup k' d.
Proof.
  unfold PyDict.del.
  induction d as [|[k0 v0] d IH]; csimpl.
  - by case_decide.
  - rewrite filter_cons. csimpl. destruct (decide (k0 ≠ k)) as [Hne | Heq].
    + csimpl. rewrite IH. repeat case_decide; simplify_eq; done.
    + apply dec_stable in Heq. subst. rewrite IH.
      repeat case_decide; simplify_eq; done.
Qed.

Lemma keys_del k d : PyDict.keys (PyDict.del k d) = filter (λ k', k' ≠ k) (PyDict.keys d).
Proof.
  unfold PyDict.del, PyDict.keys.
  induction d as [|[k0 v0] d IH]; csimpl; [done|].
  rewrite !filter_cons. csimpl. case_decide; csimpl; by rewrite IH.
Qed.

Lemma wf_del k d : PyDict.wf d → PyDict.wf (PyDict.del k d).
Proof. unfold PyDict.wf. rewrite keys_del. apply NoDup_filter. Qed.

Lemma length_del k d : length (PyDict.del k d) ≤ length d.
Proof. unfold PyDict.del. apply length_filter. Qed.

Lemma lookup_set k k' v d :
  PyDict.lookup k' (PyDict.set k v d) = if decide (k = k') then Some v else PyDict.lookup k' d.
Proof.
  induction d as [|[k0 v0] d IH]; csimpl.
  - repeat case_decide; simplify_eq; done.
  - repeat (case_decide; csimpl; simplify_eq); try done;
      rewrite IH; case_decide; simplify_eq; done.
Qed.

Lemma set_fresh k v d : k ∉ PyDict.keys d → PyDict.set k v d = d ++ [(k, v)].
Proof.
  unfold PyDict.keys.
  induction d as [|[k0 v0] d IH]; csimpl; [done|].
  rewrite not_elem_of_cons. intros [Hne Hnin].
  rewrite decide_False by done. by rewrite IH.
Qed.

Lemma keys_update k f d : PyDict.keys (PyDict.update k f d) = PyDict.keys d.
Proof.
  unfold PyDict.keys.
  induction d as [|[k0 v0] d IH]; csimpl; [done|].
  case_decide; csimpl; [done|]. by rewrite IH.
Qed.

Lemma lookup_update k k' f d :
  PyDict.lookup k' (PyDict.update k f d) =
  if decide (k = k') then f <$> PyDict.lookup k' d else PyDict.lookup k' d.
Proof.
  induction d as [|[k0 v0] d IH]; csimpl.
  - by case_decide.
  - repeat (case_decide; csimpl; simplify_eq); try done;
      rewrite IH; case_decide; simplify_eq; done.
Qed.

Lemma lookup_filter_keys (ks : list string) k d :
  PyDict.lookup k (filter (λ kv, kv.1 ∉ ks) d) =
  if decide (k ∈ ks) then None else PyDict.lookup k d.
Proof.
  induction d as [|[k0 v0] d IH]; csimpl.
  - by case_decide.
  - rewrite filter_cons. csimpl. destruct (decide (k0 ∉ ks)) as [Hn | Hin].
    + csimpl. rewrite IH. repeat case_decide; simplify_eq; done.
    + apply dec_stable in Hin. rewrite IH.
      repeat case_decide; simplify_eq; done.
Qed.

Lemma filter_del (ks : list string) k d :
  filter (λ kv, kv.1 ∉ ks) (PyDict.del k d) = filter (λ kv, kv.1 ∉ k :: ks) d.
Proof.
  unfold PyDict.del. rewrite list_filter_filter.
  apply list_filter_iff. intros [k0 v0]. csimpl.
  rewrite not_elem_of_cons. tauto.
Qed.

Lemma filter_all (P : string * V → Prop) `{!∀ x, Decision (P x)} d :
  (∀ x, x ∈ d → P x) → filter P d = d.
Proof.
  induction d as [|x d IH]; intros HP; [done|].
  rewrite filter_cons_True by (apply HP; left).
  rewrite IH; [done|]. intros y Hy. apply HP. by right.
Qed.

Lemma del_absent k d : PyDict.lookup k d = None → PyDict.del k d = d.
Proof.
  intros Hn. apply filter_all. intros [k0 v0] Hin. csimpl. intros ->.
  apply lookup_None_keys in Hn. apply Hn.
  apply list_elem_of_fmap. by exists (k, v0).
Qed.

Lemma keys_set_del k v d :
  PyDict.keys (PyDict.set k v (PyDict.del k d))
  = filter (λ k', k' ≠ k) (PyDict.keys d) ++ [k].
Proof.
  rewrite set_fresh.
  - rewrite <-keys_del. unfold PyDict.keys. by rewrite fmap_app.
  - apply lookup_None_keys. rewrite lookup_del. by rewrite decide_True.
Qed.

Lemma wf_set_del k v d : PyDict.wf d → PyDict.wf (PyDict.set k v (PyDict.del k d)).
Proof.
  unfold PyDict.wf. rewrite keys_set_del. intros Hwf.
  apply NoDup_app. split; [by apply NoDup_filter|]. split.
  - intros k' [Hne _]%list_elem_of_filter Hin.
    apply list_elem_of_singleton in Hin. done.
  - apply NoDup_singleton.
Qed.

Lemma count_key_set_del k v d :
  length (filter (λ k', k' = k) (PyDict.keys (PyDict.set k v (PyDict.del k d)))) = 1.
Proof.
  rewrite keys_set_del, filter_app, length_app.
  assert (filter (λ k', k' = k) (filter (λ k', k' ≠ k) (PyDict.keys d)) = [])
    as ->.
  { induction (PyDict.keys d) as [|x l IH]; [done|].
    rewrite (filter_cons (λ k', k' ≠ k)). case_decide; [|done].
    by rewrite filter_cons_False. }
  by rewrite filter_cons_True.
Qed.

Lemma length_set_del k v d :
  length (PyDict.set k v (PyDict.del k d)) = S (length (PyDict.del k d)).
Proof.
  rewrite set_fresh.
  - rewrite length_app. simpl. lia.
  - apply lookup_None_keys. rewrite lookup_del. by rewrite decide_True.
Qed.

Lemma length_del_present k d :
  is_Some (PyDict.lookup k d) → length (PyDict.del k d) < length d.
Proof.
  intros [v Hv]. apply lookup_Some_elem in Hv.
  unfold PyDict.del. eapply length_filter_lt; [exact Hv|]. csimpl. tauto.
Qed.

Lemma length_del_wf k d :
  PyDict.wf d → is_Some (PyDict.lookup k d) → S (length (PyDict.del k d)) = length d.
Proof.
  unfold PyDict.wf, PyDict.keys, PyDict.del.
  induction d as [|[k0 v0] d IH]; csimpl; intros Hwf Hs.
  - by destruct Hs.
  - apply NoDup_cons in Hwf as [Hk Hwf]. rewrite filter_cons. csimpl.
    destruct (decide (k0 = k)) as [->|Hne].
    + rewrite decide_False by tauto.
      rewrite filter_all; [done|]. intros [k1 v1] Hin. csimpl. intros ->.
      apply Hk. apply list_elem_of_fmap. by exists (k, v1).
    + rewrite decide_True by done. csimpl. f_equal. by apply IH.
Qed.

End dict_facts.
End PyRtFacts.

Module WSMFacts.
Import PyRt PyRtFacts WSM.

Lemma same_identity_refl c : same_identity c c.
Proof. by repeat split. Qed.

Lemma same_identity_trans c1 c2 c3 :
  same_identity c1 c2 → same_identity c2 c3 → same_identity c1 c3.
Proof. intros (?&?&?) (?&?&?). repeat split; congruence. Qed.

Lemma option_same_identity_refl (o : option ConnectedClient) :
  option_Forall2 same_identity o o.
Proof. destruct o; constructor. apply same_identity_refl. Qed.

Lemma option_same_identity_trans (o1 o2 o3 : option ConnectedClient) :
  option_Forall2 same_identity o1 o2 → option_Forall2 same_identity o2 o3 →
  option_Forall2 same_identity o1 o3.
Proof.
  intros H1 H2. destruct H1; inversion H2; subst; constructor.
  eauto using same_identity_trans.
Qed.

Lemma failed_sends_app evs1 evs2 :
  failed_sends (evs1 ++ evs2) = failed_sends evs1 ++ failed_sends evs2.
Proof. unfold failed_sends. apply omap_app. Qed.

Lemma elem_of_failed_sends k evs :
  k ∈ failed_sends evs ↔ send_failed k evs.
Proof.
  unfold failed_sends, send_failed. rewrite list_elem_of_omap. split.
  - intros (ev & Hin & Hev). destruct ev as [k' ws m [e|]|]; simplify_eq.
    eauto.
  - intros (ws & m & e & Hin). eexists. split; [exact Hin | done].
Qed.

(** The clients after an in-place update of one entry. *)
Lemma lookup_update_identity k f (d : list (string * ConnectedClient)) :
  (∀ c, same_identity c (f c)) →
  ∀ k', option_Forall2 same_identity (PyDict.lookup k' d)
                       (PyDict.lookup k' (PyDict.update k f d)).
Proof.
  intros Hf k'. rewrite lookup_update. case_decide.
  - destruct (PyDict.lookup k' d); constructor. apply Hf.
  - apply option_same_identity_refl.
Qed.

Lemma broadcast_body_run env et msg acc item w :
  ∃ w' evs,
    broadcast_body env et msg acc item w = (Ok (acc ++ failed_sends evs), w')
    ∧ net w' = net w ++ evs
    ∧ Forall2 (is_send_for msg) (if is_subscribed et item.2 then [item] else []) evs
    ∧ PyDict.keys (clients (self w')) = PyDict.keys (clients (self w))
    ∧ ∀ k, option_Forall2 same_identity
             (PyDict.lookup k (clients (self w)))
             (PyDict.lookup k (clients (self w'))).
Proof.
  unfold broadcast_body. destruct (is_subscribed et item.2) eqn:Hsub.
  - unfold try_except. rewrite bind_run. unfold ws_send_json.
    destruct (send_json_raises env (net w) (websocket item.2) msg) as [e|] eqn:Hr.
    + eexists _, [EvSendJson item.1 (websocket item.2) msg (Some e)].
      simpl. split; [reflexivity|]. split; [reflexivity|].
      split; [repeat constructor; by eexists|].
      split; [reflexivity|]. intros k. apply option_same_identity_refl.
    + eexists _, [EvSendJson item.1 (websocket item.2) msg None].
      simpl. rewrite app_nil_r. split; [reflexivity|]. split; [reflexivity|].
      split; [repeat constructor; by eexists|].
      split.
      * unfold set_clients. simpl. by rewrite !keys_update.
      * intros k. unfold set_clients. simpl.
        eapply option_same_identity_trans;
          apply lookup_update_identity; intros c; by repeat split.
  - exists w, []. simpl. rewrite !app_nil_r. split; [reflexivity|].
    split; [reflexivity|]. split; [constructor|]. split; [reflexivity|].
    intros k. apply option_same_identity_refl.
Qed.

Lemma broadcast_loop_run env et msg items : ∀ acc w,
  ∃ w' evs,
    for_fold (broadcast_body env et msg) acc items w
      = (Ok (acc ++ failed_sends evs), w')
    ∧ net w' = net w ++ evs
    ∧ Forall2 (is_send_for msg)
        (filter (λ kc, is_subscribed et kc.2 = true) items) evs
    ∧ PyDict.keys (clients (self w')) = PyDict.keys (clients (self w))
    ∧ ∀ k, option_Forall2 same_identity
             (PyDict.lookup k (clients (self w)))
             (PyDict.lookup k (clients (self w'))).
Proof.
  induction items as [|item items IH]; intros acc w.
  - exists w, []. simpl. rewrite !app_nil_r. split; [reflexivity|].
    split; [reflexivity|]. split; [constructor|]. split; [reflexivity|].
    intros k. apply option_same_identity_refl.
  - destruct (broadcast_body_run env et msg acc item w)
      as (w1 & evs1 & Hrun1 & Hnet1 & Hev1 & Hk1 & Hid1).
    destruct (IH (acc ++ failed_sends evs1) w1)
      as (w2 & evs2 & Hrun2 & Hnet2 & Hev2 & Hk2 & Hid2).
    exists w2, (evs1 ++ evs2). simpl.
    rewrite (bind_ok _ _ _ _ _ Hrun1), Hrun2.
    rewrite failed_sends_app, app_assoc. split; [reflexivity|].
    split; [by rewrite Hnet2, Hnet1, app_assoc|].
    split.
    + rewrite filter_cons. destruct (is_subscribed et item.2) eqn:Hsub.
      * rewrite decide_True by done.
        change (item :: ?l) with ([item] ++ l). by apply Forall2_app.
      * rewrite decide_False by (by intros ?). inversion Hev1. subst. done.
    + split; [congruence|]. intros k.
      eapply option_same_identity_trans; [apply Hid1 | apply Hid2].
Qed.

Lemma remove_run cid w :
  ∃ w', remove cid w = (Ok tt, w')
    ∧ net w' = net w ∧ ticks w' = ticks w
    ∧ clients (self w') = PyDict.del cid (clients (self w)).
Proof.
  unfold remove. rewrite bind_run. simpl.
  destruct (PyDict.contains cid (clients (self w))) eqn:Hc.
  - eexists. split; [reflexivity|]. by repeat split.
  - exists w. split; [reflexivity|]. repeat split.
    symmetry. apply del_absent. unfold PyDict.contains in Hc.
    by destruct (PyDict.lookup cid (clients (self w))).
Qed.

Lemma remove_all_run ks : ∀ w,
  ∃ w', for_each remove ks w = (Ok tt, w')
    ∧ net w' = net w ∧ ticks w' = ticks w
    ∧ clients (self w') = filter (λ kv, kv.1 ∉ ks) (clients (self w)).
Proof.
  unfold for_each.
  induction ks as [|k ks IH]; intros w.
  - exists w. simpl. repeat split.
    symmetry. apply filter_all. intros ? _. apply not_elem_of_nil.
  - destruct (remove_run k w) as (w1 & Hrun1 & Hnet1 & Ht1 & Hc1).
    destruct (IH w1) as (w2 & Hrun2 & Hnet2 & Ht2 & Hc2).
    exists w2. simpl. rewrite (bind_ok _ _ _ _ _ Hrun1), Hrun2.
    split; [reflexivity|]. repeat split; [congruence | congruence |].
    by rewrite Hc2, Hc1, filter_del.
Qed.

Lemma time_time_run env w :
  time_time env w
  = (Ok (clock env (ticks w)),
     {| self := self w; net := net w; ticks := S (ticks w) |}).
Proof. reflexivity. Qed.

Lemma new_effects_app w w' evs : net w' = net w ++ evs → new_effects w w' = evs.
Proof. unfold new_effects. intros ->. by rewrite drop_app_length. Qed.

(** What a call of [broadcast] does: it returns normally; it calls
    [send_json] once for every subscribed entry, in registry order; the
    entries whose call raised are gone afterwards, the others keep their
    identity. *)
Lemma broadcast_run env et data w :
  ∃ w1 evs,
    broadcast env et data w = (Ok tt, w1)
    ∧ net w1 = net w ++ evs
    ∧ Forall2 (is_send_for (mkMessage et data (clock env (ticks w))))
        (filter (λ kc, is_subscribed et kc.2 = true) (clients (self w))) evs
    ∧ (∀ k, k ∈ failed_sends evs → PyDict.lookup k (clients (self w1)) = None)
    ∧ (∀ k, k ∉ failed_sends evs →
         option_Forall2 same_identity
           (PyDict.lookup k (clients (self w)))
           (PyDict.lookup k (clients (self w1))))
    ∧ (PyDict.wf (clients (self w)) → PyDict.wf (clients (self w1))).
Proof.
  set (w0 := {| self := self w; net := net w; ticks := S (ticks w) |}).
  set (msg := {| msg_type := et; msg_data := data;
                 msg_timestamp := clock env (ticks w) |}).
  destruct (broadcast_loop_run env et msg (clients (self w0)) [] w0)
    as (w1 & evs & Hrun1 & Hnet1 & Hev1 & Hk1 & Hid1).
  destruct (remove_all_run (failed_sends evs) w1)
    as (w2 & Hrun2 & Hnet2 & Ht2 & Hc2).
  exists w2, evs. unfold broadcast.
  rewrite (bind_ok _ _ _ _ _ (time_time_run env w)).
  rewrite (bind_ok _ _ _ _ _ (get_run _)).
  fold w0 msg. rewrite (bind_ok _ _ _ _ _ Hrun1). simpl. rewrite Hrun2.
  split; [reflexivity|]. split; [by rewrite Hnet2, Hnet1|].
  split; [exact Hev1|]. split; [|split].
  - intros k Hk. rewrite Hc2, lookup_filter_keys. by rewrite decide_True.
  - intros k Hk. rewrite Hc2, lookup_filter_keys. rewrite decide_False by done.
    apply (Hid1 k).
  - unfold PyDict.wf. intros Hwf. rewrite Hc2.
    change (NoDup (PyDict.keys (clients (self w0)))) in Hwf.
    rewrite <-Hk1 in Hwf. unfold PyDict.keys in *.
    eapply sublist_NoDup; [exact Hwf|].
    apply fmap_sublist. apply sublist_filter.
Qed.

(** Every [send_json] call of a [broadcast] is made for a registered key. *)
Lemma broadcast_targets_registered env et data w cid :
  targeted cid (new_effects w (broadcast env et data w).2) →
  is_Some (PyDict.lookup cid (clients (self w))).
Proof.
  destruct (broadcast_run env et data w) as (w1 & evs & Hrun & Hnet & Hev & _).
  rewrite Hrun. simpl. rewrite (new_effects_app _ _ _ Hnet).
  intros (ws & m & r & Hin).
  apply list_elem_of_lookup in Hin as [i Hi].
  destruct (Forall2_lookup_r _ _ _ _ _ Hev Hi) as ([k c] & Hl & r' & Heq).
  simpl in Heq. simplify_eq.
  apply list_elem_of_lookup_2 in Hl. apply list_elem_of_filter in Hl as [_ Hl].
  apply lookup_is_Some_keys. apply list_elem_of_fmap. by eexists (_, c).
Qed.

Lemma log_run r w :
  log_ r w
  = (Ok tt,
     {| self := {| clients := clients (self w);
                   logger := logger (self w) ++ [r] |};
        net := net w; ticks := ticks w |}).
Proof. reflexivity. Qed.

Lemma disconnect_run env cid w old :
  PyDict.lookup cid (clients (self w)) = Some old →
  ∃ r, disconnect env cid w
       = (Ok tt,
          {| self := {| clients := PyDict.del cid (clients (self w));
                        logger := logger (self w) ++ [LogDisconnected cid] |};
             net := net w ++ [EvClose (websocket old) r];
             ticks := ticks w |}).
Proof.
  intros Hl. unfold disconnect.
  rewrite (bind_ok _ _ _ _ _ (get_run _)). rewrite Hl.
  unfold try_except, ws_close. rewrite !bind_run.
  destruct (close_raises env (net w) (websocket old)) as [e|] eqn:Hc;
    eexists; reflexivity.
Qed.

(** What a call of [connect] does. *)
Lemma connect_run env ws cid events w :
  let c := {| client_id := cid; websocket := ws;
              subscribed_events := subscription_of events;
              message_history := [];
              connected_at := clock env (ticks w);
              last_message_at := clock env (S (ticks w)) |} in
  ∃ w1 evs,
    connect env ws cid events w = (Ok c, w1)
    ∧ net w1 = net w ++ evs
    ∧ clients (self w1) = PyDict.set cid c (PyDict.del cid (clients (self w)))
    ∧ (∀ old, PyDict.lookup cid (clients (self w)) = Some old →
         ∃ r, evs = [EvClose (websocket old) r])
    ∧ (PyDict.lookup cid (clients (self w)) = None → evs = []).
Proof.
  intros c. unfold connect.
  rewrite (bind_ok _ _ _ _ _ (get_run _)).
  unfold PyDict.contains.
  destruct (PyDict.lookup cid (clients (self w))) as [old|] eqn:Hl.
  - pose (wl := {| self := {| clients := clients (self w);
                              logger := logger (self w) ++ [LogReconnecting cid] |};
                   net := net w; ticks := ticks w |}).
    destruct (disconnect_run env cid wl old Hl) as [r Hd].
    assert ((log_ (LogReconnecting cid) ≫= λ _, disconnect env cid) w
            = (Ok tt, {| self := {| clients := PyDict.del cid (clients (self w));
                                    logger := logger (self wl) ++ [LogDisconnected cid] |};
                         net := net w ++ [EvClose (websocket old) r];
                         ticks := ticks w |})) as Hpre.
    { rewrite (bind_ok _ _ _ _ _ (log_run _ _)). exact Hd. }
    rewrite (bind_ok _ _ _ _ _ Hpre).
    eexists _, [EvClose (websocket old) r].
    split; [reflexivity|]. split; [reflexivity|]. split; [reflexivity|].
    split; [|done]. intros ? [= <-]. eauto.
  - eexists _, []. split; [reflexivity|]. rewrite app_nil_r.
    split; [reflexivity|]. split; [|done].
    simpl. by rewrite del_absent.
Qed.

Lemma is_subscribed_true et c :
  is_subscribed et c = true
  ↔ ALL_EVENTS ∈ subscribed_events c ∨ et ∈ subscribed_events c.
Proof.
  unfold is_subscribed. rewrite orb_true_iff, !bool_decide_eq_true. done.
Qed.

Lemma broadcast_sends_subscribed env et data w cid c :
  PyDict.lookup cid (clients (self w)) = Some c →
  is_subscribed et c = true →
  sent_to cid (websocket c) (mkMessage et data (clock env (ticks w)))
    (new_effects w (broadcast env et data w).2).
Proof.
  intros Hl Hsub.
  destruct (broadcast_run env et data w) as (w1 & evs & Hrun & Hnet & Hev & _).
  rewrite Hrun. simpl. rewrite (new_effects_app _ _ _ Hnet).
  apply lookup_Some_elem in Hl.
  assert ((cid, c) ∈ filter (λ kc, is_subscribed et kc.2 = true)
                       (clients (self w))) as Hin
    by (by apply list_elem_of_filter).
  apply list_elem_of_lookup in Hin as [i Hi].
  destruct (Forall2_lookup_l _ _ _ _ _ Hev Hi) as (ev & Hl' & r & ->).
  exists r. by apply list_elem_of_lookup_2 in Hl'.
Qed.

Lemma broadcast_targets_subscribed env et data w cid c :
  PyDict.wf (clients (self w)) →
  PyDict.lookup cid (clients (self w)) = Some c →
  targeted cid (new_effects w (broadcast env et data w).2) →
  is_subscribed et c = true.
Proof.
  intros Hwf Hl.
  destruct (broadcast_run env et data w) as (w1 & evs & Hrun & Hnet & Hev & _).
  rewrite Hrun. simpl. rewrite (new_effects_app _ _ _ Hnet).
  intros (ws & m & r & Hin).
  apply list_elem_of_lookup in Hin as [i Hi].
  destruct (Forall2_lookup_r _ _ _ _ _ Hev Hi) as ([k c'] & Hl' & r' & Heq).
  simpl in Heq. simplify_eq.
  apply list_elem_of_lookup_2 in Hl'.
  apply list_elem_of_filter in Hl' as [Hsub Hin]. simpl in Hsub.
  apply (elem_lookup_wf _ _ _ Hwf) in Hin. congruence.
Qed.

(** C2. For a registered client and a call of [broadcast(event_type, data)],
    [send_json] is called with the message for that client if and only if
    its [subscribed_events] holds the event type or ["all"]; for a client
    subscribed to neither, no [send_json] call at all is made. *)
Theorem broadcast_sends_iff_subscribed env et data w cid c :
  PyDict.wf (clients (self w)) →
  PyDict.lookup cid (clients (self w)) = Some c →
  let evs := new_effects w (broadcast env et data w).2 in
  (sent_to cid (websocket c) (mkMessage et data (clock env (ticks w))) evs
   ↔ ALL_EVENTS ∈ subscribed_events c ∨ et ∈ subscribed_events c)
  ∧ (¬ (ALL_EVENTS ∈ subscribed_events c ∨ et ∈ subscribed_events c)
     → ¬ targeted cid evs).
Proof.
  intros Hwf Hl evs. split; [split|].
  - intros [r Hin]. apply is_subscribed_true.
    eapply broadcast_targets_subscribed; [done | done |].
    eexists (websocket c), _, r. exact Hin.
  - intros Hsub%is_subscribed_true. by apply broadcast_sends_subscribed.
  - intros Hn Ht. apply Hn, is_subscribed_true.
    eapply broadcast_targets_subscribed; eauto.
Qed.

Lemma world2_wf : PyDict.wf (clients (self world2)).
Proof. apply (bool_decide_unpack _). vm_compute. exact I. Qed.

Lemma broadcast_sends_iff_subscribed_witness :
  PyDict.wf (clients (self world2))
  ∧ PyDict.lookup "client-1" (clients (self world2)) = Some client1
  ∧ let evs := new_effects world2 (broadcast env_ok "event-a" JNull world2).2 in
    (sent_to "client-1" 1 (mkMessage "event-a" JNull 4%Z) evs
     ↔ ALL_EVENTS ∈ subscribed_events client1
       ∨ "event-a" ∈ subscribed_events client1)
    ∧ (¬ (ALL_EVENTS ∈ subscribed_events client1
          ∨ "event-a" ∈ subscribed_events client1)
       → ¬ targeted "client-1" evs).
Proof.
  split; [exact world2_wf|]. split; [reflexivity|].
  apply (broadcast_sends_iff_subscribed env_ok "event-a" JNull world2
           "client-1" client1).
  - exact world2_wf.
  - reflexivity.
Defined.

(** C8. [connect] with an id that is already registered calls [close] on
    the old websocket, leaves exactly one entry under that id, whose
    websocket is the new one, and does not grow [client_count] (in a
    well-formed registry it is unchanged). *)
Theorem connect_duplicate_replaces env ws cid events w old :
  PyDict.lookup cid (clients (self w)) = Some old →
  ∃ c w1,
    connect env ws cid events w = (Ok c, w1)
    ∧ (∃ r, EvClose (websocket old) r ∈ new_effects w w1)
    ∧ get_client (self w1) cid = Some c
    ∧ websocket c = ws
    ∧ length (filter (λ k, k = cid) (PyDict.keys (clients (self w1)))) = 1
    ∧ client_count (self w1) ≤ client_count (self w)
    ∧ (PyDict.wf (clients (self w)) →
       PyDict.wf (clients (self w1))
       ∧ client_count (self w1) = client_count (self w)).
Proof.
  intros Hl.
  destruct (connect_run env ws cid events w)
    as (w1 & evs & Hrun & Hnet & Hc & Hold & _).
  eexists _, w1. split; [exact Hrun|].
  destruct (Hold _ Hl) as [r ->].
  rewrite (new_effects_app _ _ _ Hnet).
  unfold get_client, client_count. rewrite Hc.
  split; [exists r; left|].
  split; [by rewrite lookup_set, decide_True|].
  split; [done|].
  split; [apply count_key_set_del|].
  rewrite length_set_del. split.
  - apply length_del_present. by rewrite Hl.
  - intros Hwf. split; [by apply wf_set_del|].
    apply length_del_wf; [done | by rewrite Hl].
Qed.

Lemma connect_duplicate_replaces_witness :
  PyDict.lookup "client-1" (clients (self world2)) = Some client1
  ∧ ∃ c w1,
      connect env_ok 7 "client-1" None world2 = (Ok c, w1)
      ∧ (∃ r, EvClose (websocket client1) r ∈ new_effects world2 w1)
      ∧ get_client (self w1) "client-1" = Some c
      ∧ websocket c = 7
      ∧ length (filter (λ k, k = "client-1")
                  (PyDict.keys (clients (self w1)))) = 1
      ∧ client_count (self w1) ≤ client_count (self world2)
      ∧ (PyDict.wf (clients (self world2)) →
         PyDict.wf (clients (self w1))
         ∧ client_count (self w1) = client_count (self world2)).
Proof.
  split; [reflexivity|].
  apply (connect_duplicate_replaces env_ok 7 "client-1" None world2 client1).
  reflexivity.
Defined.

(** [broadcast] on its own returns normally whatever exceptions the
    websockets raise; an entry whose [send_json] call raised is gone from
    the registry when it returns, and no later broadcast makes a call for
    it; every other entry is still registered with the same id, websocket
    and subscriptions. *)
Lemma broadcast_run_cleanup env et data w :
  ∃ w1,
    broadcast env et data w = (Ok tt, w1)
    ∧ (∀ cid, send_failed cid (new_effects w w1) →
         get_client (self w1) cid = None
         ∧ ∀ env' et' data',
             ¬ targeted cid (new_effects w1 (broadcast env' et' data' w1).2))
    ∧ (∀ cid c, get_client (self w) cid = Some c →
         ¬ send_failed cid (new_effects w w1) →
         ∃ c', get_client (self w1) cid = Some c' ∧ same_identity c c').
Proof.
  destruct (broadcast_run env et data w)
    as (w1 & evs & Hrun & Hnet & Hev & Hgone & Hkept & _).
  exists w1. split; [exact Hrun|].
  rewrite (new_effects_app _ _ _ Hnet). unfold get_client. split.
  - intros cid Hf%elem_of_failed_sends.
    specialize (Hgone _ Hf). split; [exact Hgone|].
    intros env' et' data' Ht%broadcast_targets_registered.
    rewrite Hgone in Ht. by destruct Ht.
  - intros cid c Hl Hnf. rewrite <-elem_of_failed_sends in Hnf.
    specialize (Hkept _ Hnf). rewrite Hl in Hkept.
    inversion Hkept; subst. eauto.
Qed.

(** C10. [connect] called with [events=None] or with an empty list
    subscribes the client to ["all"] only, and from then on, as long as
    the entry keeps its websocket and subscriptions, every [broadcast]
    calls [send_json] for it, whatever the event type. *)
Theorem connect_without_events_receives_all env ws cid events w :
  events = None ∨ events = Some [] →
  ∃ c w1,
    connect env ws cid events w = (Ok c, w1)
    ∧ subscribed_events c = {[ ALL_EVENTS ]}
    ∧ get_client (self w1) cid = Some c
    ∧ ∀ w2 c2 env' et data,
        get_client (self w2) cid = Some c2 →
        same_identity c c2 →
        sent_to cid ws (mkMessage et data (clock env' (ticks w2)))
          (new_effects w2 (broadcast env' et data w2).2).
Proof.
  intros Hev.
  destruct (connect_run env ws cid events w)
    as (w1 & evs & Hrun & Hnet & Hc & _).
  eexists _, w1. split; [exact Hrun|].
  split; [by destruct Hev as [-> | ->]|].
  unfold get_client. rewrite Hc.
  split; [by rewrite lookup_set, decide_True|].
  intros w2 c2 env' et data Hl2 (_ & Hws & Hsubs). simpl in Hws, Hsubs.
  rewrite <-Hws. apply broadcast_sends_subscribed; [exact Hl2|].
  apply is_subscribed_true. left. rewrite Hsubs.
  destruct Hev as [-> | ->]; simpl; by apply elem_of_singleton.
Qed.

Lemma connect_without_events_receives_all_witness :
  (Some ([] : list string) = None ∨ Some ([] : list string) = Some [])
  ∧ ∃ c w1,
      connect env_ok 3 "client-3" (Some []) world2 = (Ok c, w1)
      ∧ subscribed_events c = {[ ALL_EVENTS ]}
      ∧ get_client (self w1) "client-3" = Some c
      ∧ ∀ w2 c2 env' et data,
          get_client (self w2) "client-3" = Some c2 →
          same_identity c c2 →
          sent_to "client-3" 3 (mkMessage et data (clock env' (ticks w2)))
            (new_effects w2 (broadcast env' et data w2).2).
Proof.
  split; [right; reflexivity|].
  apply (connect_without_events_receives_all env_ok 3 "client-3" (Some [])
           world2).
  right. reflexivity.
Defined.

(** [test_broadcast_failure_cleanup]: the only client's send raises, the
    broadcast returns and the registry is empty. *)
Example broadcast_failure_cleanup :
  let w := (connect env_lost 1 "client-1" (Some ["all"]) world0).2 in
  ∃ w1, broadcast env_lost "some-event" JNull w = (Ok tt, w1)
        ∧ client_count (self w1) = 0.
Proof. eexists. split; [vm_compute; reflexivity | reflexivity]. Qed.

(** [test_broadcast]: a matching event is sent, a non-matching one is not. *)
Example broadcast_matching_only :
  let w := (connect env_ok 1 "client-1" (Some ["event-a"]) world0).2 in
  new_effects w (broadcast env_ok "event-a" JNull w).2
    = [EvSendJson "client-1" 1 (mkMessage "event-a" JNull 2%Z) None]
  ∧ new_effects w (broadcast env_ok "event-b" JNull w).2 = [].
Proof. split; vm_compute; reflexivity. Qed.

End WSMFacts.


Module EventEmitterFacts.
Import PyRt PyRtFacts EventEmitter.

Section emitter_facts.
Context {S : Type}.
Implicit Types (em : Emitter S) (h : Handler S) (st : EmitStore S).

Lemma run_all_app payload (hs1 hs2 : list (Handler S)) a :
  run_all payload (hs1 ++ hs2) a = run_all payload hs2 (run_all payload hs1 a).
Proof. unfold run_all. apply foldl_app. Qed.

Lemma raised_by_app payload (hs1 hs2 : list (Handler S)) a :
  raised_by payload (hs1 ++ hs2) a
  = raised_by payload hs1 a ++ raised_by payload hs2 (run_all payload hs1 a).
Proof.
  revert a. induction hs1 as [|h hs1 IH]; intros a; [done|]. simpl.
  change (run_all payload (h :: hs1) a)
    with (run_all payload hs1 (handler_run h payload a).2).
  destruct (handler_run h payload a) as [[u|e] a']; simpl; by rewrite IH.
Qed.

(** One guarded invocation: the handler runs, and an exception it raises
    ends up in the log. *)
Lemma guarded_invoke_run payload h st :
  try_except (invoke h payload) (log_error h) st
  = (Ok tt,
     {| app := (handler_run h payload (app st)).2;
        error_log := error_log st ++ raised_by payload [h] (app st) |}).
Proof.
  unfold try_except, invoke. simpl.
  destruct (handler_run h payload (app st)) as [[[]|e] a']; simpl.
  - by rewrite app_nil_r.
  - reflexivity.
Qed.

(** The loop of [emit] over a list of handlers: it never raises, every
    handler is run, the raised exceptions are logged. *)
Lemma emit_loop_run payload (hs : list (Handler S)) : ∀ st,
  for_each (λ h, try_except (invoke h payload) (log_error h)) hs st
  = (Ok tt,
     {| app := run_all payload hs (app st);
        error_log := error_log st ++ raised_by payload hs (app st) |}).
Proof.
  unfold for_each.
  induction hs as [|h hs IH]; intros st.
  - simpl. rewrite app_nil_r. by destruct st.
  - change (h :: hs) with ([h] ++ hs) at 2 3.
    rewrite raised_by_app, app_assoc. simpl for_fold.
    rewrite (bind_ok _ _ _ _ _ (guarded_invoke_run payload h st)).
    by rewrite IH.
Qed.

(** What [register] adds to the handlers of a kind. *)
Lemma handlers_for_register kind k h em :
  handlers_for kind (register k h em)
  = if decide (k = kind) then handlers_for kind em ++ [h]
    else handlers_for kind em.
Proof.
  unfold handlers_for at 1, register. simpl.
  case_decide as Hk.
  - subst k. by rewrite lookup_insert_eq.
  - by rewrite lookup_insert_ne.
Qed.

Lemma handlers_for_register_all kind (regs : list (string * Handler S)) :
  ∀ em,
    handlers_for kind (register_all regs em)
    = handlers_for kind em ++ registered_for kind regs.
Proof.
  unfold register_all, registered_for.
  induction regs as [|[k h] regs IH]; intros em; simpl.
  - by rewrite app_nil_r.
  - rewrite IH, handlers_for_register, filter_cons. simpl.
    case_decide; simpl; [by rewrite <-app_assoc | done].
Qed.

Lemma handlers_for_empty kind :
  handlers_for kind (empty_emitter : Emitter S) = [].
Proof. unfold handlers_for, empty_emitter. simpl. by rewrite lookup_empty. Qed.

(** The emission over a given list of handlers. *)
Lemma emit_run em kind payload st :
  emit em kind payload st
  = (Ok tt,
     {| app := run_all payload (handlers_for kind em) (app st);
        error_log :=
          error_log st ++ raised_by payload (handlers_for kind em) (app st) |}).
Proof. apply emit_loop_run. Qed.

(** C3. After any sequence of [register] calls on a new emitter, [emit]
    returns normally whatever the handlers raise, and runs every handler
    registered for the kind on the payload, in registration order; in
    particular, when a registered handler raises, the exception is logged
    and the handlers registered after it for that kind are run on the
    same payload, from the state it left. *)
Theorem handler_error_isolation (regs : list (string * Handler S))
    kind payload st :
  ∃ st',
    emit (register_all regs empty_emitter) kind payload st = (Ok tt, st')
    ∧ app st' = run_all payload (registered_for kind regs) (app st)
    ∧ ∀ before h after e a,
        registered_for kind regs = before ++ h :: after →
        handler_run h payload (run_all payload before (app st)) = (Raise e, a) →
        app st' = run_all payload after a
        ∧ (handler_id h, e) ∈ error_log st'.
Proof.
  eexists. split; [apply emit_run|].
  rewrite handlers_for_register_all, handlers_for_empty. simpl.
  split; [done|].
  intros before h after e a Hhs Hraise. rewrite Hhs. split.
  - rewrite run_all_app.
    change (run_all payload (h :: after) ?x)
      with (run_all payload after (handler_run h payload x).2).
    by rewrite Hraise.
  - rewrite raised_by_app. simpl. rewrite Hraise.
    rewrite !elem_of_app. right. right. left.
Qed.

End emitter_facts.

(** [test_handler_error_isolation]: [results == [{"ok": True}]]. *)
Example test_handler_error_isolation :
  let payload := JObj [("ok", JBool true)] in
  emit test_emitter "test" payload {| app := []; error_log := [] |}
  = (Ok tt,
     {| app := [payload];
        error_log := [(0, Exception_ "RuntimeError" "Boom")] |}).
Proof. vm_compute. reflexivity. Qed.

(** Emitting a kind with no handlers does nothing. *)
Example test_emit_no_handlers :
  emit test_emitter "nonexistent_event" JNull {| app := []; error_log := [] |}
  = (Ok tt, {| app := []; error_log := [] |}).
Proof. vm_compute. reflexivity. Qed.

End EventEmitterFacts.

Module BridgeFacts.
Import PyRt PyRtFacts Bridge.

(** C4. Handling [chat_closed] leaves [characters] empty, [chat_active]
    false, [chat_id] and [current_speaker_id] cleared, whatever the state
    was. *)
Theorem chat_closed_clears_chat s :
  let s' := new_state (handle_raw RawChatClosed s) in
  characters s' = ∅
  ∧ chat_active s' = false
  ∧ chat_id s' = None
  ∧ current_speaker_id s' = None.
Proof. by repeat split. Qed.

(** [test_on_chat_closed], from a state with a chat and a character. *)
Example test_on_chat_closed :
  chat_id state_in_chat = Some "chat-123"
  ∧ characters state_in_chat !! "char-1" = Some apex
  ∧ let s' := new_state (handle_raw RawChatClosed state_in_chat) in
    chat_id s' = None ∧ size (characters s') = 0.
Proof. vm_compute. done. Qed.

(** The rows of §4.3 alone do not give "SPEAKING implies a current
    speaker" (§3): they give [speech_playback_start] no speaker to set,
    and [test_on_speech_playback_start_stop] sends it with an empty
    payload to a fresh store.  §4.2 has the mutators enforce that
    invariant and does not say how; [set_ai_state] as modelled here
    leaves the speaker as it was. *)
Lemma speaking_without_speaker :
  let s := (run_raw [RawSpeechPlaybackStart] initial_state).1 in
  reachable s ∧ ai_state s = SPEAKING ∧ current_speaker_id s = None.
Proof. split; [by exists [RawSpeechPlaybackStart] | done]. Qed.

(** The speaker bookkeeping of the rows of §4.3.  Every return of
    [ai_state] to IDLE (playback complete, interruption, cancellation)
    clears [current_speaker_id]; [speech_playback_start] enters SPEAKING
    and leaves [current_speaker_id] as it was, so that right after a
    [reply_start] it is that reply's sender; and [speech_playback_start]
    followed by [speech_playback_complete] shows a subscriber
    [SPEAKING, IDLE] and ends with [current_speaker_id] cleared
    (Scenario D). *)
Lemma ai_state_speaker_bookkeeping :
  (∀ s,
     let s' := new_state (handle_raw RawSpeechPlaybackComplete s) in
     ai_state s' = IDLE ∧ current_speaker_id s' = None)
  ∧ (∀ s,
       let s' := new_state (handle_raw RawInterruptSpeech s) in
       ai_state s' = IDLE ∧ current_speaker_id s' = None)
  ∧ (∀ s mid,
       let s' := new_state (handle_raw (RawReplyCancelled mid) s) in
       ai_state s' = IDLE ∧ current_speaker_id s' = None)
  ∧ (∀ s,
       let s' := new_state (handle_raw RawSpeechPlaybackStart s) in
       ai_state s' = SPEAKING ∧ current_speaker_id s' = current_speaker_id s)
  ∧ (∀ s mid sender,
       let s' := (run_raw [RawReplyStart mid sender; RawSpeechPlaybackStart]
                          s).1 in
       ai_state s' = SPEAKING ∧ current_speaker_id s' = Some sender)
  ∧ (∀ s,
       let r := run_raw [RawSpeechPlaybackStart; RawSpeechPlaybackComplete] s in
       observed_ai_states r.2 = [SPEAKING; IDLE]
       ∧ ai_state r.1 = IDLE
       ∧ current_speaker_id r.1 = None).
Proof. by repeat split. Qed.

(** [test_on_speech_playback_start_stop], on a fresh store. *)
Example test_on_speech_playback_start_stop :
  let s1 := new_state (handle_raw RawSpeechPlaybackStart initial_state) in
  let s2 := new_state (handle_raw RawSpeechPlaybackComplete s1) in
  ai_state s1 = SPEAKING ∧ ai_state s2 = IDLE ∧ current_speaker_id s2 = None.
Proof. done. Qed.

(** C6. Without a session, every outbound operation raises the
    session-not-ready error to its caller, sends nothing upstream and
    leaves the store as it was. *)
Theorem outbound_requires_session transport op b :
  session_id (state b) = None →
  perform transport op b = (Raise SessionNotReadyError, b).
Proof.
  intros Hnone.
  destruct op; simpl;
    unfold interrupt, send_message, update_context, speech_playback_start,
      speech_playback_complete, character_speech_request, outbound;
    rewrite bind_run; unfold require_session;
    rewrite (bind_ok _ _ _ _ _ (get_run _)), Hnone; reflexivity.
Qed.

Lemma outbound_requires_session_witness :
  session_id (state fresh_bridge) = None
  ∧ perform transport_ok OpInterrupt fresh_bridge
    = (Raise SessionNotReadyError, fresh_bridge).
Proof.
  split; [reflexivity|].
  apply (outbound_requires_session transport_ok OpInterrupt fresh_bridge).
  reflexivity.
Defined.

(** With a session and a working transport the call goes upstream, keyed
    by the session id. *)
Lemma outbound_with_session transport op b sid :
  session_id (state b) = Some sid →
  transport (sent_upstream b) = None →
  perform transport op b
  = (Ok tt, {| state := state b;
               sent_upstream := sent_upstream b ++ [(sid, op)] |}).
Proof.
  intros Hsid Hok.
  destruct op; simpl;
    unfold interrupt, send_message, update_context, speech_playback_start,
      speech_playback_complete, character_speech_request, outbound;
    rewrite bind_run; unfold require_session;
    rewrite (bind_ok _ _ _ _ _ (get_run _)), Hsid; simpl;
    unfold upstream_call; rewrite (bind_ok _ _ _ _ _ (get_run _)), Hok;
    reflexivity.
Qed.

End BridgeFacts.


Module SentenceBufferFacts.
Import SentenceBuffer.

(** ** Scanning keeps every character *)

Lemma scan_concat txt : ∀ cur sentences remaining,
  scan cur txt = (sentences, remaining) →
  concat sentences ++ remaining = cur ++ txt.
Proof.
  induction txt as [|c rest IH]; intros cur sentences remaining; simpl.
  - intros [= <- <-]. by rewrite app_nil_r.
  - destruct (boundary_after c rest).
    + destruct (scan [] rest) as [ss rem] eqn:Hs.
      intros [= <- <-]. simpl. rewrite <-!app_assoc.
      by rewrite (IH _ _ _ Hs).
    + intros Hs. rewrite (IH _ _ _ Hs). by rewrite <-app_assoc.
Qed.

(** ** Offsets of contiguous chunks *)

Lemma offset_of_0 pieces : offset_of pieces 0 = 0.
Proof. reflexivity. Qed.

Lemma offset_of_S pieces j p :
  pieces !! j = Some p →
  offset_of pieces (S j) = offset_of pieces j + length p.
Proof.
  intros Hj. unfold offset_of. rewrite (take_S_r _ _ _ Hj).
  rewrite concat_app, length_app. simpl. by rewrite app_nil_r.
Qed.

Lemma concat_take_S (pieces : list Text) j p :
  pieces !! j = Some p →
  concat (take (S j) pieces) = concat (take j pieces) ++ p.
Proof.
  intros Hj. rewrite (take_S_r _ _ _ Hj), concat_app. simpl.
  by rewrite app_nil_r.
Qed.

Lemma offset_of_mono pieces i j :
  i ≤ j → offset_of pieces i ≤ offset_of pieces j.
Proof.
  intros Hij. unfold offset_of.
  rewrite <-(take_drop i (take j pieces)), take_take.
  rewrite concat_app, length_app.
  replace (i `min` j) with i by lia. lia.
Qed.

Lemma offset_of_cons p ps j :
  offset_of (p :: ps) (S j) = length p + offset_of ps j.
Proof. unfold offset_of. simpl. by rewrite length_app. Qed.

Lemma chunks_from_lookup pieces : ∀ o j,
  chunks_from o pieces !! j
  = (λ p, (o + offset_of pieces j, p)) <$> pieces !! j.
Proof.
  induction pieces as [|p ps IH]; intros o j; [done|].
  destruct j as [|j]; simpl.
  - rewrite offset_of_0. by rewrite Nat.add_0_r.
  - rewrite IH, offset_of_cons. destruct (ps !! j); simpl; [|done].
    do 2 f_equal. lia.
Qed.

Lemma elem_of_chunks_from pieces o t :
  (o, t) ∈ chunks_from 0 pieces
  ↔ ∃ j, pieces !! j = Some t ∧ o = offset_of pieces j.
Proof.
  rewrite list_elem_of_lookup. split.
  - intros [j Hj]. rewrite chunks_from_lookup in Hj.
    destruct (pieces !! j) as [p|] eqn:Hp; simplify_eq/=. eauto.
  - intros (j & Hp & ->). exists j. rewrite chunks_from_lookup, Hp. done.
Qed.

Lemma distinct_offsets_of_NoDup pieces :
  NoDup (chunks_from 0 pieces).*1 → distinct_offsets pieces.
Proof.
  intros Hnd i j Hi Hj Heq.
  destruct (lookup_lt_is_Some_2 pieces i Hi) as [p Hp].
  destruct (lookup_lt_is_Some_2 pieces j Hj) as [q Hq].
  eapply (NoDup_lookup _ i j (offset_of pieces i) Hnd).
  - rewrite list_lookup_fmap, chunks_from_lookup, Hp. done.
  - rewrite list_lookup_fmap, chunks_from_lookup, Hq. simpl. by rewrite Heq.
Qed.

(** ** The reassembly invariant *)

Lemma extend_appends rounds : ∀ (pend : gmap nat (list ascii)) conf,
  ∃ ext, (extend rounds pend conf).2 = conf ++ ext.
Proof.
  induction rounds as [|rounds IH]; intros pend conf; simpl.
  - exists []. by rewrite app_nil_r.
  - destruct (pend !! length conf) as [t|].
    + destruct (IH (delete (length conf) pend) (conf ++ t)) as [ext ->].
      exists (t ++ ext). by rewrite app_assoc.
    + exists []. by rewrite app_nil_r.
Qed.


Section reassembly.
Variable pieces : list (list ascii).
Hypothesis Hdistinct : distinct_offsets pieces.

Lemma reassembled_empty : reassembled pieces [] 0 ∅ [].
Proof.
  repeat split.
  - lia.
  - intros j p _ Hin. by apply elem_of_nil in Hin.
  - intros o t Hl. by rewrite lookup_empty in Hl.
Qed.

Lemma reassembled_confirmed_length delivered k pend conf :
  reassembled pieces delivered k pend conf → length conf = offset_of pieces k.
Proof. intros (_ & -> & _). reflexivity. Qed.

(** A chunk below the confirmed length is accounted for already. *)
Lemma reassembled_stale delivered k pend conf j p :
  reassembled pieces delivered k pend conf →
  pieces !! j = Some p →
  offset_of pieces j < length conf →
  reassembled pieces (delivered ++ [(offset_of pieces j, p)]) k pend conf.
Proof.
  intros Hre Hj Hlt.
  pose proof (reassembled_confirmed_length _ _ _ _ Hre) as Hlen.
  destruct Hre as (Hk & Hconf & Hheld & Hpend).
  split; [done|]. split; [done|]. split; [|done].
  intros j' p' Hj' Hin. apply elem_of_app in Hin as [Hin | Hin]; [eauto|].
  apply list_elem_of_singleton in Hin. injection Hin as Hoff _.
  left. destruct (decide (j' < k)) as [|Hge]; [done|].
  pose proof (offset_of_mono pieces k j' ltac:(lia)). lia.
Qed.

(** Holding a new chunk under its offset. *)
Lemma reassembled_insert delivered k pend conf j p :
  reassembled pieces delivered k pend conf →
  pieces !! j = Some p →
  reassembled pieces (delivered ++ [(offset_of pieces j, p)]) k
    (<[offset_of pieces j := p]> pend) conf.
Proof.
  intros (Hk & Hconf & Hheld & Hpend) Hj.
  split; [done|]. split; [done|]. split.
  - intros j' p' Hj' Hin.
    destruct (decide (offset_of pieces j' = offset_of pieces j)) as [Heq|Hne].
    + right. assert (j' = j) as ->.
      { apply Hdistinct; [by eapply lookup_lt_Some.. | done]. }
      rewrite Hj in Hj'. injection Hj' as <-. apply lookup_insert_eq.
    + apply elem_of_app in Hin as [Hin | Hin].
      * destruct (Hheld _ _ Hj' Hin) as [? | Hl]; [by left|].
        right. by rewrite lookup_insert_ne.
      * apply list_elem_of_singleton in Hin. injection Hin as Hoff _. done.
  - intros o t Hl. destruct (decide (o = offset_of pieces j)) as [->|Hne].
    + rewrite lookup_insert_eq in Hl. injection Hl as <-. eauto.
    + rewrite lookup_insert_ne in Hl by done. eauto.
Qed.

(** One round of extension: the fragment at the confirmed length is the
    next piece (or an empty last piece, once all are confirmed). *)
Lemma reassembled_round delivered k pend conf t :
  reassembled pieces delivered k pend conf →
  pend !! length conf = Some t →
  ∃ k', reassembled pieces delivered k' (delete (length conf) pend) (conf ++ t).
Proof.
  intros Hre Hl.
  pose proof (reassembled_confirmed_length _ _ _ _ Hre) as Hlen.
  destruct Hre as (Hk & Hconf & Hheld & Hpend).
  destruct (Hpend _ _ Hl) as (j & Hj & Hoff).
  pose proof (lookup_lt_Some _ _ _ Hj) as Hjn.
  assert (∀ o t', delete (length conf) pend !! o = Some t' →
            ∃ j', pieces !! j' = Some t' ∧ o = offset_of pieces j') as Hpend'.
  { intros o t' Hd. apply lookup_delete_Some in Hd as [_ Hd]. eauto. }
  destruct (decide (k < length pieces)) as [Hkn | Hkn].
  - assert (j = k) as -> by (apply Hdistinct; [done | done | congruence]).
    exists (S k). split; [lia|]. split.
    { rewrite (concat_take_S _ _ _ Hj). by rewrite Hconf. }
    split; [|done].
    intros j' p' Hj' Hin.
    destruct (decide (j' = k)) as [->|Hne]; [left; lia|].
    destruct (Hheld _ _ Hj' Hin) as [? | Hl']; [left; lia|].
    right. rewrite lookup_delete_ne; [done|].
    rewrite Hlen. intros Heq. apply Hne. symmetry.
    apply Hdistinct; [done | by eapply lookup_lt_Some | done].
  - assert (k = length pieces) as -> by lia.
    assert (t = []) as ->.
    { apply length_zero_iff_nil.
      pose proof (offset_of_S _ _ _ Hj) as HS.
      pose proof (offset_of_mono pieces (S j) (length pieces) ltac:(lia)).
      lia. }
    exists (length pieces). rewrite app_nil_r.
    split; [done|]. split; [done|]. split; [|done].
    intros j' p' Hj' _. left. by eapply lookup_lt_Some.
Qed.

Lemma extend_reassembled delivered rounds : ∀ k pend conf,
  size pend ≤ rounds →
  reassembled pieces delivered k pend conf →
  ∃ k', reassembled pieces delivered k'
          (extend rounds pend conf).1 (extend rounds pend conf).2
        ∧ (extend rounds pend conf).1 !! length (extend rounds pend conf).2
          = None.
Proof.
  induction rounds as [|rounds IH]; intros k pend conf Hsize Hre; simpl.
  - exists k. split; [done|].
    assert (pend = ∅) as -> by (apply map_size_empty_iff; lia).
    apply lookup_empty.
  - destruct (pend !! length conf) as [t|] eqn:Hl; [|by exists k].
    destruct (reassembled_round _ _ _ _ _ Hre Hl) as [k' Hre'].
    apply (IH k'); [|done].
    rewrite map_size_delete, Hl. lia.
Qed.

Lemma accept_chunk_tracks delivered out acc j p :
  tracks pieces delivered out acc →
  pieces !! j = Some p →
  tracks pieces (delivered ++ [(offset_of pieces j, p)])
    (out ++ (accept_chunk (offset_of pieces j) p acc).2)
    (accept_chunk (offset_of pieces j) p acc).1
  ∧ character_id (accept_chunk (offset_of pieces j) p acc).1
    = character_id acc.
Proof.
  intros ([k Hre] & _ & Hscan & rem & Hconf) Hj.
  unfold accept_chunk.
  set (pend := <[offset_of pieces j := p]> (pending acc)).
  pose proof (reassembled_insert _ _ _ _ _ _ Hre Hj) as Hins. fold pend in Hins.
  destruct (extend_reassembled _ (size pend) _ pend (confirmed acc)
              (Nat.le_refl _) Hins) as (k' & Hre' & Hfix).
  destruct (extend_appends (size pend) pend (confirmed acc)) as [ext Hext].
  destruct (extend (size pend) pend (confirmed acc)) as [pend' conf'].
  simpl in Hre', Hfix, Hext.
  destruct (scan [] (drop (scanned acc) conf')) as [ss rem'] eqn:Hs.
  simpl. split; [|done]. split; [by exists k'|]. split; [done|].
  apply scan_concat in Hs. simpl in Hs.
  rewrite Hext, Hconf, <-app_assoc, Hscan, drop_app_length in Hs.
  split; simpl.
  - by rewrite Hscan, concat_app, length_app.
  - exists rem'. by rewrite Hext, Hconf, concat_app, <-!app_assoc, Hs.
Qed.

End reassembly.

(** ** Trimming removes whitespace only *)

Lemma nospace_cons c t :
  nospace (c :: t) = if is_space c then nospace t else c :: nospace t.
Proof.
  unfold nospace. rewrite filter_cons.
  destruct (is_space c); by case_decide.
Qed.

Lemma nospace_app s t : nospace (s ++ t) = nospace s ++ nospace t.
Proof. apply filter_app. Qed.

Lemma nospace_reverse t : nospace (reverse t) = reverse (nospace t).
Proof.
  induction t as [|c t IH]; [done|].
  rewrite reverse_cons, nospace_app, IH, !nospace_cons.
  destruct (is_space c); simpl.
  - by rewrite app_nil_r.
  - by rewrite reverse_cons.
Qed.

Lemma nospace_trim_left t : nospace (trim_left t) = nospace t.
Proof.
  induction t as [|c t IH]; [done|]. simpl.
  destruct (is_space c) eqn:Hc.
  - by rewrite IH, nospace_cons, Hc.
  - done.
Qed.

Lemma nospace_trim t : nospace (trim t) = nospace t.
Proof.
  unfold trim.
  rewrite nospace_reverse, nospace_trim_left, nospace_reverse.
  by rewrite reverse_involutive, nospace_trim_left.
Qed.

Lemma nospace_concat_trim (spans : list Text) :
  nospace (concat (trim <$> spans)) = nospace (concat spans).
Proof.
  induction spans as [|s spans IH]; [done|]. csimpl.
  by rewrite !nospace_app, nospace_trim, IH.
Qed.

Lemma sr_text_announce mid cid spans :
  sr_text <$> announce mid cid spans = trim <$> spans.
Proof.
  unfold announce.
  induction spans as [|s ss IH]; [done|]. csimpl. by rewrite IH.
Qed.

Lemma tracks_new pieces cid : tracks pieces [] [] (new_accumulator cid).
Proof.
  split; [exists 0; apply reassembled_empty|]. split; [apply lookup_empty|].
  split; [done|]. by exists [].
Qed.

Section delivery.
Variable pieces : list (list ascii).
Hypothesis Hdistinct : distinct_offsets pieces.
Variables mid cid : string.

(** One chunk: the sentences announced are the trimmed spans that the
    scan completes, and the accumulator tracks those spans. *)
Lemma process_chunk_tracks delivered out buf j p :
  tracks pieces delivered out (default (new_accumulator cid) (buf !! mid)) →
  pieces !! j = Some p →
  ∃ spans,
    sr_text <$> (process_chunk mid cid p (offset_of pieces j) buf).2
    = trim <$> spans
    ∧ tracks pieces (delivered ++ [(offset_of pieces j, p)]) (out ++ spans)
        (default (new_accumulator cid)
           ((process_chunk mid cid p (offset_of pieces j) buf).1 !! mid)).
Proof.
  intros Htr Hj. unfold process_chunk.
  set (acc := default (new_accumulator cid) (buf !! mid)) in *.
  case_decide as Hstale.
  - exists []. split; [done|]. simpl. rewrite app_nil_r. fold acc.
    destruct Htr as ([k Hre] & Hfix & Hem).
    split; [|done]. exists k. by apply reassembled_stale.
  - destruct (accept_chunk_tracks pieces Hdistinct _ _ _ _ _ Htr Hj)
      as [Htr' _].
    destruct (accept_chunk (offset_of pieces j) p acc) as [acc' ss].
    exists ss. simpl in *. by rewrite lookup_insert_eq, sr_text_announce.
Qed.

Lemma deliver_tracks chunks : ∀ delivered out buf,
  (∀ o t, (o, t) ∈ chunks → (o, t) ∈ chunks_from 0 pieces) →
  tracks pieces delivered out (default (new_accumulator cid) (buf !! mid)) →
  ∃ spans,
    sr_text <$> (deliver mid cid chunks buf).2 = trim <$> spans
    ∧ tracks pieces (delivered ++ chunks) (out ++ spans)
        (default (new_accumulator cid)
           ((deliver mid cid chunks buf).1 !! mid)).
Proof.
  induction chunks as [|[o t] chunks IH]; intros delivered out buf Hsub Htr.
  - exists []. split; [done|]. simpl. by rewrite !app_nil_r.
  - destruct (proj1 (elem_of_chunks_from pieces o t) (Hsub o t ltac:(left)))
      as (j & Hj & ->).
    destruct (process_chunk_tracks _ _ _ _ _ Htr Hj) as (spans1 & Ho1 & Htr1).
    simpl.
    destruct (process_chunk mid cid t (offset_of pieces j) buf)
      as [buf1 out1].
    simpl in Ho1, Htr1.
    assert (∀ o' t', (o', t') ∈ chunks → (o', t') ∈ chunks_from 0 pieces)
      as Hsub' by (intros o' t' Hin; apply Hsub; by right).
    destruct (IH _ _ buf1 Hsub' Htr1) as (spans2 & Ho2 & Htr2).
    destruct (deliver mid cid chunks buf1) as [buf2 out2].
    simpl in *. exists (spans1 ++ spans2). split.
    + by rewrite !fmap_app, Ho1, Ho2.
    + rewrite app_assoc. by rewrite <-app_assoc in Htr2.
Qed.

(** Once every chunk has been delivered, the confirmed text is the whole
    reply. *)
Lemma tracks_complete delivered out acc :
  tracks pieces delivered out acc →
  (∀ o t, (o, t) ∈ chunks_from 0 pieces → (o, t) ∈ delivered) →
  confirmed acc = concat pieces.
Proof.
  intros ([k (Hk & Hconf & Hheld & Hpend)] & Hfix & _) Hall.
  destruct (decide (k < length pieces)) as [Hlt | Hge].
  - exfalso. destruct (lookup_lt_is_Some_2 pieces k Hlt) as [p Hp].
    destruct (Hheld k p Hp) as [? | Hl]; [|lia|].
    + apply Hall, elem_of_chunks_from. eauto.
    + rewrite Hconf in Hfix. unfold offset_of in Hl. congruence.
  - rewrite Hconf. by rewrite take_ge by lia.
Qed.

End delivery.

Lemma scenario_a_permutation :
  scenario_a_delivery ≡ₚ chunks_from 0 scenario_pieces.
Proof. apply perm_swap. Qed.

Lemma scenario_offsets_distinct : NoDup (chunks_from 0 scenario_pieces).*1.
Proof. apply (bool_decide_unpack _). vm_compute. exact I. Qed.

Lemma empty_piece_permutation :
  empty_piece_delivery ≡ₚ chunks_from 0 empty_piece_reply.
Proof.
  change (chunks_from 0 empty_piece_reply)
    with [(0, text "a"); (1, [] : list ascii); (1, text "b")].
  unfold empty_piece_delivery.
  rewrite <-(reverse_Permutation [(0, text "a"); (1, []); (1, text "b")]).
  reflexivity.
Qed.




(** Scenario A, evaluated: ["Hello world."] is emitted while the chunks
    arrive, at the delivery of the chunk at offset 0, and ["Bye."] on
    [reply_end]. *)
Example scenario_a_emits :
  sr_text <$> (deliver "m1" "c1" scenario_a_delivery ∅).2
  = [text "Hello world."]
  ∧ sr_text <$> (deliver_reply "m1" "c1" scenario_a_delivery ∅).2
    = [text "Hello world."; text "Bye."].
Proof. split; vm_compute; reflexivity. Qed.

(** Scenario B: a cancelled reply emits nothing and leaves no
    accumulator. *)
Example scenario_b_cancelled :
  let '(buf, out) := process_chunk "m1" "c1" (text "Partial") 0 ∅ in
  out = [] ∧ clear "m1" buf !! "m1" = None.
Proof. vm_compute. done. Qed.

(** C7. A chunk whose offset lies inside the confirmed prefix is ignored:
    the delivery changes nothing in the buffer and emits nothing, so
    whatever is delivered afterwards emits what it would have emitted
    without it. *)
Theorem confirmed_duplicate_ignored mid cid t o
    (buf : gmap string SentenceAccumulator) acc :
  buf !! mid = Some acc →
  o < next_offset acc →
  process_chunk mid cid t o buf = (buf, [])
  ∧ ∀ later,
      deliver_reply mid cid later (process_chunk mid cid t o buf).1
      = deliver_reply mid cid later buf.
Proof.
  intros Hacc Hlt.
  assert (process_chunk mid cid t o buf = (buf, [])) as Heq.
  { unfold process_chunk. rewrite Hacc. simpl. by rewrite decide_True. }
  split; [exact Heq|]. intros later. by rewrite Heq.
Qed.

Lemma confirmed_duplicate_ignored_witness :
  scenario_c_buffer !! "m1" = Some scenario_c_accumulator
  ∧ 0 < next_offset scenario_c_accumulator
  ∧ process_chunk "m1" "c1" (text "Hello ") 0 scenario_c_buffer
    = (scenario_c_buffer, [])
  ∧ ∀ later,
      deliver_reply "m1" "c1" later
        (process_chunk "m1" "c1" (text "Hello ") 0 scenario_c_buffer).1
      = deliver_reply "m1" "c1" later scenario_c_buffer.
Proof.
  assert (scenario_c_buffer !! "m1" = Some scenario_c_accumulator) as H1
    by (vm_compute; reflexivity).
  assert (0 < next_offset scenario_c_accumulator) as H2
    by (vm_compute; lia).
  split; [exact H1|]. split; [exact H2|].
  exact (confirmed_duplicate_ignored "m1" "c1" (text "Hello ") 0
           scenario_c_buffer scenario_c_accumulator H1 H2).
Defined.

(** Scenario C for any text: a non-empty chunk at offset 0 of a new reply,
    delivered twice; the second delivery is ignored. *)
Lemma first_chunk_twice mid cid t (buf : gmap string SentenceAccumulator) :
  buf !! mid = None →
  t ≠ [] →
  let buf1 := (process_chunk mid cid t 0 buf).1 in
  process_chunk mid cid t 0 buf1 = (buf1, []).
Proof.
  intros Hfresh Ht buf1.
  assert (∃ acc, buf1 !! mid = Some acc ∧ 0 < next_offset acc)
    as (acc & Hacc & Hpos).
  { unfold buf1, process_chunk. rewrite Hfresh. simpl.
    unfold accept_chunk. simpl.
    rewrite insert_empty, map_size_singleton. simpl.
    rewrite lookup_singleton_eq.
    destruct (scan [] (drop 0 t)) as [ss rem]. simpl.
    eexists. rewrite lookup_insert_eq. split; [reflexivity|].
    unfold next_offset. simpl. destruct t; [done | simpl; lia]. }
  unfold process_chunk. rewrite Hacc. simpl. by rewrite decide_True.
Qed.

End SentenceBufferFacts.

(* ===================================================================== *)
(** * More on the websocket manager                                      *)
(* ===================================================================== *)

Module WSMMoreFacts.
Import PyRt PyRtFacts WSM WSMFacts.

(** ** More on dictionaries *)

Lemma Forall_update {V} (Q : string * V → Prop) k f (d : list (string * V)) :
  Forall Q d → (∀ v, Q (k, v) → Q (k, f v)) → Forall Q (PyDict.update k f d).
Proof.
  intros Hd Hf. induction Hd as [|[k' v] d Hkv Hd IH]; simpl; [constructor|].
  case_decide; subst; constructor; auto.
Qed.

Lemma wf_update {V} k f (d : list (string * V)) :
  PyDict.wf d → PyDict.wf (PyDict.update k f d).
Proof. unfold PyDict.wf. by rewrite keys_update. Qed.

Lemma lookup_snoc_fresh {V} k k' (v : V) (d : list (string * V)) :
  PyDict.lookup k' (d ++ [(k, v)])
  = match PyDict.lookup k' d with
    | Some v' => Some v'
    | None => if decide (k = k') then Some v else None
    end.
Proof.
  induction d as [|[k0 v0] d IH]; simpl; [reflexivity|].
  destruct (decide (k0 = k')); [reflexivity | exact IH].
Qed.

Lemma set_del_snoc {V} k (v : V) (d : list (string * V)) :
  PyDict.set k v (PyDict.del k d) = PyDict.del k d ++ [(k, v)].
Proof.
  apply set_fresh, lookup_None_keys. rewrite lookup_del. by rewrite decide_True.
Qed.

Lemma del_snoc_fresh {V} k (v : V) (d : list (string * V)) :
  PyDict.lookup k d = None → PyDict.del k (d ++ [(k, v)]) = d.
Proof.
  intros Hn. unfold PyDict.del. rewrite filter_app.
  rewrite filter_cons_False by (simpl; tauto). rewrite filter_nil, app_nil_r.
  by apply del_absent.
Qed.

(** ** [disconnect] and [remove] *)

Lemma disconnect_exact env cid w :
  ∃ w1,
    disconnect env cid w = (Ok tt, w1)
    ∧ net w1 = net w ++
        match PyDict.lookup cid (clients (self w)) with
        | Some c => [EvClose (websocket c)
                       (close_raises env (net w) (websocket c))]
        | None => []
        end
    ∧ clients (self w1) = PyDict.del cid (clients (self w))
    ∧ (PyDict.lookup cid (clients (self w)) = None → w1 = w).
Proof.
  unfold disconnect. rewrite (bind_ok _ _ _ _ _ (get_run _)).
  destruct (PyDict.lookup cid (clients (self w))) as [c|] eqn:Hl.
  - unfold try_except, ws_close. rewrite !bind_run.
    destruct (close_raises env (net w) (websocket c)) as [e|];
      (eexists; split; [reflexivity|]; by repeat split).
  - exists w. split; [reflexivity|]. rewrite app_nil_r.
    repeat split. symmetry. by apply del_absent.
Qed.

(** [disconnect], run from start to end on its own (not cancelled, no
    other task changing the registry while [close] is awaited), does not
    raise, whatever instance of [Exception] [close] raises.  For a
    registered id it calls [close] once on that client's websocket (an
    [Exception] from [close] is swallowed) and drops the entry; for an
    unknown id it does nothing at all.  Either way the id is not
    registered afterwards, every other entry is as it was, and a
    broadcast that follows makes no call for the id. *)
Theorem disconnect_spec env cid w :
  ∃ w1,
    disconnect env cid w = (Ok tt, w1)
    ∧ new_effects w w1
      = match get_client (self w) cid with
        | Some c => [EvClose (websocket c)
                             (close_raises env (net w) (websocket c))]
        | None => []
        end
    ∧ clients (self w1) = PyDict.del cid (clients (self w))
    ∧ get_client (self w1) cid = None
    ∧ (∀ k, k ≠ cid → get_client (self w1) k = get_client (self w) k)
    ∧ (get_client (self w) cid = None → w1 = w)
    ∧ ∀ env' et data,
        ¬ targeted cid (new_effects w1 (broadcast env' et data w1).2).
Proof.
  unfold get_client.
  destruct (disconnect_exact env cid w) as (w1 & Hrun & Hnet & Hc & Hnone).
  exists w1. split; [exact Hrun|].
  split; [exact (new_effects_app _ _ _ Hnet)|].
  split; [exact Hc|]. rewrite Hc.
  split; [by rewrite lookup_del, decide_True|].
  split; [intros k Hk; by rewrite lookup_del, decide_False|].
  split; [exact Hnone|].
  intros env' et data Ht%broadcast_targets_registered.
  rewrite Hc, lookup_del, decide_True in Ht by done. by destruct Ht.
Qed.

(** [remove] never raises and never touches a websocket; the id is not
    registered afterwards, every other entry is as it was, an unknown id
    changes nothing, and removing twice is removing once. *)
Theorem remove_spec cid w :
  ∃ w1,
    remove cid w = (Ok tt, w1)
    ∧ net w1 = net w
    ∧ clients (self w1) = PyDict.del cid (clients (self w))
    ∧ get_client (self w1) cid = None
    ∧ (∀ k, k ≠ cid → get_client (self w1) k = get_client (self w) k)
    ∧ (get_client (self w) cid = None → w1 = w)
    ∧ remove cid w1 = (Ok tt, w1).
Proof.
  unfold get_client.
  assert (∀ w0, PyDict.lookup cid (clients (self w0)) = None →
                remove cid w0 = (Ok tt, w0)) as Hnoop.
  { intros w0 Hn. unfold remove. rewrite (bind_ok _ _ _ _ _ (get_run _)).
    unfold PyDict.contains. by rewrite Hn. }
  destruct (remove_run cid w) as (w1 & Hrun & Hnet & _ & Hc).
  exists w1. split; [exact Hrun|]. split; [exact Hnet|].
  split; [exact Hc|]. rewrite Hc.
  split; [by rewrite lookup_del, decide_True|].
  split; [intros k Hk; by rewrite lookup_del, decide_False|].
  split.
  - intros Hn. rewrite (Hnoop w Hn) in Hrun. by injection Hrun.
  - apply Hnoop. by rewrite Hc, lookup_del, decide_True.
Qed.

(** ** [connect] *)

(** [connect], run from start to end on its own (not cancelled, no other
    task changing the registry while the old connection is closed), does
    not raise, whatever instance of [Exception] the old websocket's
    [close] raises.  It files the new client object at the end of the
    registry, under its id, with an empty history and the requested
    subscriptions; an older entry under that id is discarded with its
    history; every other entry is as it was.  For an id that was not
    registered no websocket call is made and [client_count] grows by
    one. *)
Theorem connect_registers_at_end env ws cid events w :
  ∃ c w1,
    connect env ws cid events w = (Ok c, w1)
    ∧ clients (self w1) = PyDict.del cid (clients (self w)) ++ [(cid, c)]
    ∧ client_id c = cid
    ∧ websocket c = ws
    ∧ subscribed_events c = subscription_of events
    ∧ get_client_history (self w1) cid = []
    ∧ (∀ k, k ≠ cid → get_client (self w1) k = get_client (self w) k)
    ∧ (get_client (self w) cid = None →
       new_effects w w1 = []
       ∧ clients (self w1) = clients (self w) ++ [(cid, c)]
       ∧ client_count (self w1) = S (client_count (self w))).
Proof.
  destruct (connect_run env ws cid events w)
    as (w1 & evs & Hrun & Hnet & Hc & _ & Hnew).
  eexists _, w1. split; [exact Hrun|].
  rewrite set_del_snoc in Hc.
  split; [exact Hc|]. do 3 (split; [reflexivity|]).
  unfold get_client_history, get_client, client_count. rewrite Hc.
  split; [|split].
  - rewrite lookup_snoc_fresh, lookup_del, !decide_True by done. done.
  - intros k Hk. rewrite lookup_snoc_fresh, lookup_del.
    rewrite !decide_False by done. by destruct (PyDict.lookup k _).
  - intros Hn. rewrite (new_effects_app _ _ _ Hnet), (Hnew Hn).
    rewrite (del_absent _ _ Hn), length_app. simpl.
    repeat split. lia.
Qed.

(** Registering a new id and disconnecting it again gives back the
    registry as it was, order included. *)
Theorem connect_disconnect_round_trip env env' ws cid events w :
  get_client (self w) cid = None →
  let w1 := (connect env ws cid events w).2 in
  let w2 := (disconnect env' cid w1).2 in
  clients (self w2) = clients (self w).
Proof.
  intros Hn.
  destruct (connect_run env ws cid events w) as (w1 & evs & Hrun & _ & Hc & _).
  destruct (disconnect_exact env' cid w1) as (w2 & Hrun2 & _ & Hc2 & _).
  simpl. rewrite Hrun. simpl. rewrite Hrun2. simpl.
  rewrite Hc2, Hc, set_del_snoc, (del_absent _ _ Hn).
  by apply del_snoc_fresh.
Qed.

Lemma connect_disconnect_round_trip_witness :
  get_client (self world2) "client-3" = None
  ∧ let w1 := (connect env_ok 3 "client-3" None world2).2 in
    let w2 := (disconnect env_lost "client-3" w1).2 in
    clients (self w2) = clients (self world2).
Proof.
  split; [reflexivity|].
  apply (connect_disconnect_round_trip env_ok env_lost 3 "client-3" None
           world2).
  reflexivity.
Defined.

(** Registering a new id raises [get_subscriber_count] by one for the
    event types the new client is subscribed to (all of them when [events]
    is [None] or empty) and leaves it as it was for the others. *)
Theorem connect_counts_subscriber env ws cid events w et :
  get_client (self w) cid = None →
  get_subscriber_count (self (connect env ws cid events w).2) et
  = get_subscriber_count (self w) et
    + (if decide (ALL_EVENTS ∈ subscription_of events
                  ∨ et ∈ subscription_of events) then 1 else 0).
Proof.
  intros Hn.
  destruct (connect_run env ws cid events w) as (w1 & evs & Hrun & _ & Hc & _).
  rewrite Hrun. simpl. unfold get_subscriber_count.
  rewrite Hc, set_del_snoc, (del_absent _ _ Hn), filter_app, length_app.
  f_equal. rewrite filter_cons, filter_nil. simpl.
  destruct (decide (ALL_EVENTS ∈ subscription_of events
                    ∨ et ∈ subscription_of events)) as [Hs | Hs].
  - rewrite decide_True; [done|]. by apply is_subscribed_true.
  - rewrite decide_False; [done|]. by rewrite is_subscribed_true.
Qed.

Lemma connect_counts_subscriber_witness :
  get_client (self world2) "client-3" = None
  ∧ get_subscriber_count
      (self (connect env_ok 3 "client-3" (Some ["event-b"]) world2).2)
      "event-b"
    = get_subscriber_count (self world2) "event-b"
      + (if decide (ALL_EVENTS ∈ subscription_of (Some ["event-b"])
                    ∨ "event-b" ∈ subscription_of (Some ["event-b"]))
         then 1 else 0).
Proof.
  split; [reflexivity|].
  apply (connect_counts_subscriber env_ok 3 "client-3" (Some ["event-b"])
           world2 "event-b").
  reflexivity.
Defined.

(** In a registry with unique keys, [disconnect] and [remove] of a
    registered id both lower [client_count] by exactly one. *)
Theorem unregister_lowers_count env cid w :
  PyDict.wf (clients (self w)) →
  is_Some (get_client (self w) cid) →
  S (client_count (self (disconnect env cid w).2)) = client_count (self w)
  ∧ S (client_count (self (remove cid w).2)) = client_count (self w).
Proof.
  intros Hwf Hs.
  destruct (disconnect_exact env cid w) as (w1 & Hrun & _ & Hc & _).
  destruct (remove_run cid w) as (w2 & Hrun2 & _ & _ & Hc2).
  rewrite Hrun, Hrun2. simpl. unfold client_count. rewrite Hc, Hc2.
  split; by apply length_del_wf.
Qed.

Lemma unregister_lowers_count_witness :
  PyDict.wf (clients (self world2))
  ∧ is_Some (get_client (self world2) "client-2")
  ∧ S (client_count (self (disconnect env_ok "client-2" world2).2))
    = client_count (self world2)
  ∧ S (client_count (self (remove "client-2" world2).2))
    = client_count (self world2).
Proof.
  split; [exact world2_wf|]. split; [by eexists|].
  apply (unregister_lowers_count env_ok "client-2" world2).
  - exact world2_wf.
  - by eexists.
Defined.

(** ** [send_to_client] *)

(** [send_to_client] for a registered id, on the registry itself. *)
Lemma send_to_client_exact env cid et data w c :
  PyDict.lookup cid (clients (self w)) = Some c →
  let msg := mkMessage et data (clock env (ticks w)) in
  let r := send_json_raises env (net w) (websocket c) msg in
  ∃ w1,
    send_to_client env cid et data w = (Ok tt, w1)
    ∧ net w1 = net w ++ [EvSendJson cid (websocket c) msg r]
    ∧ PyDict.lookup cid (clients (self w1))
      = match r with
        | None => Some (record_delivery msg (clock env (S (ticks w))) c)
        | Some _ => None
        end
    ∧ ∀ k, k ≠ cid →
           PyDict.lookup k (clients (self w1))
           = PyDict.lookup k (clients (self w)).
Proof.
  intros Hl msg r. unfold send_to_client.
  rewrite (bind_ok _ _ _ _ _ (get_run _)), Hl.
  rewrite (bind_ok _ _ _ _ _ (time_time_run env w)).
  set (w0 := {| self := self w; net := net w; ticks := S (ticks w) |}).
  fold msg. unfold try_except. rewrite bind_run. unfold ws_send_json.
  change (net w0) with (net w). fold r.
  destruct r as [e|].
  - rewrite bind_run. rewrite log_run.
    set (wl := {| self := _; net := _; ticks := _ |}).
    destruct (remove_run cid wl) as (w1 & Hrun & Hnet & _ & Hc).
    exists w1. split; [exact Hrun|]. split; [by rewrite Hnet|].
    rewrite Hc. split; [by rewrite lookup_del, decide_True|].
    intros k Hk. by rewrite lookup_del, decide_False.
  - eexists. split; [reflexivity|]. simpl. split; [reflexivity|].
    rewrite !lookup_update. split.
    + rewrite Hl. by destruct (decide (cid = cid)).
    + intros k Hk. rewrite !lookup_update. by destruct (decide (cid = k)).
Qed.

(** [send_to_client], run from start to end on its own (not cancelled,
    no other task changing the registry while [send_json] is awaited),
    does not raise, whatever instance of [Exception] [send_json] raises.
    For an unknown id nothing happens, not even a clock reading.  For a
    registered id, whatever its subscriptions, [send_json] is called
    exactly once on its websocket; when the call returns, the message is
    appended to the client's history and [last_message_at] is set; when
    it raises an instance of [Exception], the client is removed.  Every
    other entry is as it was. *)
Theorem send_to_client_spec env cid et data w :
  ∃ w1,
    send_to_client env cid et data w = (Ok tt, w1)
    ∧ match get_client (self w) cid with
      | None => w1 = w
      | Some c =>
          let msg := mkMessage et data (clock env (ticks w)) in
          let r := send_json_raises env (net w) (websocket c) msg in
          new_effects w w1 = [EvSendJson cid (websocket c) msg r]
          ∧ get_client (self w1) cid
            = match r with
              | None => Some (record_delivery msg (clock env (S (ticks w))) c)
              | Some _ => None
              end
          ∧ ∀ k, k ≠ cid → get_client (self w1) k = get_client (self w) k
      end.
Proof.
  unfold get_client.
  destruct (PyDict.lookup cid (clients (self w))) as [c|] eqn:Hl.
  - destruct (send_to_client_exact env cid et data w c Hl)
      as (w1 & Hrun & Hnet & Hget & Hoth).
    exists w1. split; [exact Hrun|]. simpl.
    split; [exact (new_effects_app _ _ _ Hnet)|]. by split.
  - exists w. split; [|reflexivity].
    unfold send_to_client. rewrite (bind_ok _ _ _ _ _ (get_run _)).
    by rewrite Hl.
Qed.

(** After a successful [send_to_client] the history is the old one with
    the message at the end, without its oldest entry when it was full
    (100 messages). *)
Theorem send_to_client_history env cid et data w c :
  get_client (self w) cid = Some c →
  length (message_history c) ≤ 100 →
  let msg := mkMessage et data (clock env (ticks w)) in
  send_json_raises env (net w) (websocket c) msg = None →
  get_client_history (self (send_to_client env cid et data w).2) cid
  = (if decide (length (message_history c) < 100)
     then message_history c
     else drop 1 (message_history c)) ++ [msg].
Proof.
  intros Hl Hlen msg Hr.
  destruct (send_to_client_exact env cid et data w c Hl)
    as (w1 & Hrun & _ & Hget & _).
  rewrite Hrun. simpl. fold msg in Hget. rewrite Hr in Hget.
  unfold get_client_history. rewrite Hget. simpl.
  unfold deque_append. rewrite length_app. simpl.
  case_decide.
  - by replace (length (message_history c) + 1 - 100) with 0 by lia.
  - replace (length (message_history c) + 1 - 100) with 1 by lia.
    rewrite drop_app_le by lia. done.
Qed.

Lemma send_to_client_history_witness :
  get_client (self world2) "client-1" = Some client1
  ∧ length (message_history client1) ≤ 100
  ∧ let msg := mkMessage "direct" JNull (clock env_ok (ticks world2)) in
    send_json_raises env_ok (net world2) (websocket client1) msg = None
    ∧ get_client_history
        (self (send_to_client env_ok "client-1" "direct" JNull world2).2)
        "client-1"
      = (if decide (length (message_history client1) < 100)
         then message_history client1
         else drop 1 (message_history client1)) ++ [msg].
Proof.
  split; [reflexivity|]. split; [simpl; lia|]. split; [reflexivity|].
  apply (send_to_client_history env_ok "client-1" "direct" JNull world2
           client1).
  - reflexivity.
  - simpl. lia.
  - reflexivity.
Defined.

(** ** [update_subscriptions] *)

(** [update_subscriptions] never raises and makes no websocket call.  For
    a registered id it replaces the subscriptions by exactly the given
    events: afterwards a broadcast makes a call for the client if and only
    if the event type or ["all"] is among them, so the empty list silences
    the client (it does not mean ["all"], as it does in [connect]).  For
    an unknown id nothing changes. *)
Theorem update_subscriptions_spec cid events w :
  PyDict.wf (clients (self w)) →
  ∃ w1,
    update_subscriptions cid events w = (Ok tt, w1)
    ∧ net w1 = net w
    ∧ get_client (self w1) cid
      = set_subscribed_events (list_to_set events) <$> get_client (self w) cid
    ∧ (∀ k, k ≠ cid → get_client (self w1) k = get_client (self w) k)
    ∧ (get_client (self w) cid = None → w1 = w)
    ∧ (is_Some (get_client (self w) cid) →
       ∀ env et data,
         targeted cid (new_effects w1 (broadcast env et data w1).2)
         ↔ ALL_EVENTS ∈ events ∨ et ∈ events).
Proof.
  intros Hwf. unfold update_subscriptions, get_client.
  rewrite (bind_ok _ _ _ _ _ (get_run _)). unfold PyDict.contains.
  destruct (PyDict.lookup cid (clients (self w))) as [c|] eqn:Hl.
  - eexists. split; [reflexivity|]. simpl. split; [reflexivity|].
    rewrite lookup_update, decide_True, Hl by done. split; [done|].
    split; [intros k Hk; by rewrite lookup_update, decide_False|].
    split; [done|]. intros _ env et data.
    set (w1 := {| self := _; net := _; ticks := _ |}).
    assert (PyDict.lookup cid (clients (self w1))
            = Some (set_subscribed_events (list_to_set events) c)) as Hl1.
    { simpl. by rewrite lookup_update, decide_True, Hl. }
    assert (PyDict.wf (clients (self w1))) as Hwf1 by (by apply wf_update).
    assert (is_subscribed et (set_subscribed_events (list_to_set events) c)
            = true ↔ ALL_EVENTS ∈ events ∨ et ∈ events) as Hsub.
    { rewrite is_subscribed_true. simpl. by rewrite !elem_of_list_to_set. }
    rewrite <-Hsub. split.
    + by apply broadcast_targets_subscribed.
    + intros Hs.
      destruct (broadcast_sends_subscribed env et data w1 cid _ Hl1 Hs)
        as [r Hin].
      by eexists _, _, r.
  - exists w. split; [reflexivity|]. split; [reflexivity|].
    rewrite Hl. split; [done|]. split; [done|]. split; [done|].
    intros [? ?]; done.
Qed.

Lemma update_subscriptions_spec_witness :
  PyDict.wf (clients (self world2))
  ∧ ∃ w1,
      update_subscriptions "client-2" [] world2 = (Ok tt, w1)
      ∧ net w1 = net world2
      ∧ get_client (self w1) "client-2"
        = set_subscribed_events (list_to_set [])
            <$> get_client (self world2) "client-2"
      ∧ (∀ k, k ≠ "client-2" →
           get_client (self w1) k = get_client (self world2) k)
      ∧ (get_client (self world2) "client-2" = None → w1 = world2)
      ∧ (is_Some (get_client (self world2) "client-2") →
         ∀ env et data,
           targeted "client-2" (new_effects w1 (broadcast env et data w1).2)
           ↔ ALL_EVENTS ∈ [] ∨ et ∈ @nil string).
Proof.
  split; [exact world2_wf|].
  apply (update_subscriptions_spec "client-2" [] world2).
  exact world2_wf.
Defined.

(** ** [broadcast], exactly *)

Lemma broadcast_body_exact env et msg acc k c w :
  broadcast_body env et msg acc (k, c) w
  = if is_subscribed et c then
      match send_json_raises env (net w) (websocket c) msg with
      | Some e =>
          (Ok (acc ++ [k]),
           {| self := {| clients := clients (self w);
                         logger := logger (self w) ++ [LogSendFailed k e] |};
              net := net w ++ [EvSendJson k (websocket c) msg (Some e)];
              ticks := ticks w |})
      | None =>
          (Ok acc,
           {| self :=
                {| clients :=
                     PyDict.update k (set_last_message_at (clock env (ticks w)))
                       (PyDict.update k (history_append msg)
                          (clients (self w)));
                   logger := logger (self w) |};
              net := net w ++ [EvSendJson k (websocket c) msg None];
              ticks := S (ticks w) |})
      end
    else (Ok acc, w).
Proof.
  unfold broadcast_body. simpl.
  destruct (is_subscribed et c); [|reflexivity].
  unfold try_except, ws_send_json. rewrite bind_run.
  by destruct (send_json_raises env (net w) (websocket c) msg).
Qed.

(** What one iteration does to the registry: nothing to the entries under
    other keys, and to its own entry only after a successful send. *)
Lemma broadcast_body_entries env et msg acc k c w :
  ∃ acc1 w1 evs1,
    broadcast_body env et msg acc (k, c) w = (Ok acc1, w1)
    ∧ net w1 = net w ++ evs1
    ∧ (∀ ev, ev ∈ evs1 → ∃ r, ev = EvSendJson k (websocket c) msg r)
    ∧ (∀ cid, cid ≠ k →
         PyDict.lookup cid (clients (self w1))
         = PyDict.lookup cid (clients (self w)))
    ∧ ((∀ ws m, EvSendJson k ws m None ∉ evs1) →
       clients (self w1) = clients (self w))
    ∧ (∀ ws m, EvSendJson k ws m None ∈ evs1 →
         ∃ t, PyDict.lookup k (clients (self w1))
              = record_delivery msg t <$> PyDict.lookup k (clients (self w))).
Proof.
  rewrite broadcast_body_exact.
  destruct (is_subscribed et c).
  - destruct (send_json_raises env (net w) (websocket c) msg) as [e|].
    + eexists _, _, [_]. split; [reflexivity|]. split; [reflexivity|].
      split; [intros ev ->%list_elem_of_singleton; eauto|].
      split; [done|]. split; [done|].
      intros ws m Hin%list_elem_of_singleton. discriminate.
    + eexists _, _, [_]. split; [reflexivity|]. split; [reflexivity|].
      split; [intros ev ->%list_elem_of_singleton; eauto|]. simpl.
      split; [|split].
      * intros cid Hne. rewrite !lookup_update.
        by destruct (decide (k = cid)).
      * intros Hno. exfalso. eapply Hno. left.
      * intros ws m _. exists (clock env (ticks w)).
        rewrite !lookup_update. destruct (decide (k = k)); [|done].
        by destruct (PyDict.lookup k (clients (self w))).
  - exists acc, w, []. split; [reflexivity|]. rewrite app_nil_r.
    split; [reflexivity|].
    split; [intros ev Hin; by apply elem_of_nil in Hin|].
    split; [done|]. split; [done|].
    intros ws m Hin. by apply elem_of_nil in Hin.
Qed.

Lemma broadcast_loop_entries env et msg items :
  NoDup items.*1 →
  ∀ acc w,
  ∃ acc' w' evs,
    for_fold (broadcast_body env et msg) acc items w = (Ok acc', w')
    ∧ net w' = net w ++ evs
    ∧ (∀ ev, ev ∈ evs →
         ∃ kc r, kc ∈ items ∧ ev = EvSendJson kc.1 (websocket kc.2) msg r)
    ∧ (∀ cid, (∀ ws m, EvSendJson cid ws m None ∉ evs) →
         PyDict.lookup cid (clients (self w'))
         = PyDict.lookup cid (clients (self w)))
    ∧ (∀ cid ws m, EvSendJson cid ws m None ∈ evs →
         ∃ t, PyDict.lookup cid (clients (self w'))
              = record_delivery msg t <$> PyDict.lookup cid (clients (self w))).
Proof.
  induction items as [|[k c] items IH]; intros Hnd acc w.
  - exists acc, w, []. split; [reflexivity|]. rewrite app_nil_r.
    split; [reflexivity|].
    split; [intros ev Hin; by apply elem_of_nil in Hin|].
    split; [done|]. intros cid ws m Hin. by apply elem_of_nil in Hin.
  - apply NoDup_cons in Hnd as [Hk Hnd].
    destruct (broadcast_body_entries env et msg acc k c w)
      as (acc1 & w1 & evs1 & Hrun1 & Hnet1 & Hor1 & Hoth1 & Hsame1 & Hdel1).
    destruct (IH Hnd acc1 w1)
      as (acc2 & w2 & evs2 & Hrun2 & Hnet2 & Hor2 & Hsame2 & Hdel2).
    assert (∀ ws m r, EvSendJson k ws m r ∉ evs2) as Hnok.
    { intros ws m r Hin. destruct (Hor2 _ Hin) as ([k' c'] & r' & Hin' & Heq).
      simpl in Heq. injection Heq as -> _ _ _.
      apply Hk. apply list_elem_of_fmap. by exists (k', c'). }
    exists acc2, w2, (evs1 ++ evs2). simpl.
    rewrite (bind_ok _ _ _ _ _ Hrun1). split; [exact Hrun2|].
    split; [by rewrite Hnet2, Hnet1, app_assoc|].
    split; [|split].
    + intros ev [Hin | Hin]%elem_of_app.
      * destruct (Hor1 _ Hin) as [r ->]. exists (k, c), r. split; [left|done].
      * destruct (Hor2 _ Hin) as (kc & r & Hin' & ->).
        exists kc, r. split; [by right|done].
    + intros cid Hno.
      rewrite Hsame2 by (intros ws m Hin; apply (Hno ws m), elem_of_app; auto).
      destruct (decide (cid = k)) as [->|Hne]; [|by apply Hoth1].
      rewrite Hsame1; [done|].
      intros ws m Hin. apply (Hno ws m), elem_of_app. auto.
    + intros cid ws m [Hin | Hin]%elem_of_app.
      * destruct (Hor1 _ Hin) as [r Heq]. injection Heq as -> _ _ _.
        destruct (Hdel1 _ _ Hin) as [t Ht]. exists t.
        rewrite Hsame2; [done|]. intros ws' m'. apply Hnok.
      * destruct (Hdel2 _ _ _ Hin) as [t Ht]. exists t. rewrite Ht.
        rewrite Hoth1; [done|]. intros ->. by apply (Hnok ws m None).
Qed.

Lemma keys_filter_keys {V} (ks : list string) (d : list (string * V)) :
  PyDict.keys (filter (λ kv, kv.1 ∉ ks) d)
  = filter (λ k, k ∉ ks) (PyDict.keys d).
Proof.
  unfold PyDict.keys.
  induction d as [|[k v] d IH]; [done|].
  rewrite fmap_cons, !filter_cons. simpl.
  destruct (decide (k ∉ ks)); [rewrite fmap_cons|]; by rewrite IH.
Qed.

(** The calls of one broadcast are for pairwise different keys. *)
Lemma sends_unique msg (l : list (string * ConnectedClient)) evs k ws m r ws' m' r' :
  Forall2 (is_send_for msg) l evs →
  NoDup l.*1 →
  EvSendJson k ws m r ∈ evs →
  EvSendJson k ws' m' r' ∈ evs →
  r = r'.
Proof.
  intros Hf Hnd [i Hi]%list_elem_of_lookup [j Hj]%list_elem_of_lookup.
  destruct (Forall2_lookup_r _ _ _ _ _ Hf Hi) as (kc & Hli & ri & Heqi).
  destruct (Forall2_lookup_r _ _ _ _ _ Hf Hj) as (kc' & Hlj & rj & Heqj).
  injection Heqi as Hk _ _ _. injection Heqj as Hk' _ _ _.
  assert (i = j) as ->.
  { eapply (NoDup_lookup _ i j k Hnd);
      rewrite list_lookup_fmap; [rewrite Hli | rewrite Hlj]; simpl;
      congruence. }
  congruence.
Qed.

Lemma failed_sends_sublist msg (l : list (string * ConnectedClient)) evs :
  Forall2 (is_send_for msg) l evs → failed_sends evs `sublist_of` l.*1.
Proof.
  unfold failed_sends.
  induction 1 as [|kc ev l evs [r ->] _ IH]; [constructor|].
  rewrite fmap_cons. destruct r; simpl.
  - by apply sublist_skip.
  - by apply sublist_cons.
Qed.

Lemma send_calls_of msg (l : list (string * ConnectedClient)) evs :
  Forall2 (is_send_for msg) l evs →
  omap send_call evs = (λ kc, (kc.1, websocket kc.2, msg)) <$> l.
Proof.
  induction 1 as [|kc ev l evs [r ->] _ IH]; [done|].
  rewrite fmap_cons. simpl. by rewrite <-IH.
Qed.

(** The whole of a [broadcast] on a registry with unique keys. *)
Lemma broadcast_exact env et data w :
  PyDict.wf (clients (self w)) →
  let msg := mkMessage et data (clock env (ticks w)) in
  ∃ w1 evs,
    broadcast env et data w = (Ok tt, w1)
    ∧ net w1 = net w ++ evs
    ∧ Forall2 (is_send_for msg)
        (filter (λ kc, is_subscribed et kc.2 = true) (clients (self w))) evs
    ∧ PyDict.keys (clients (self w1))
      = filter (λ k, k ∉ failed_sends evs) (PyDict.keys (clients (self w)))
    ∧ (∀ cid, (∀ ws m r, EvSendJson cid ws m r ∉ evs) →
         PyDict.lookup cid (clients (self w1))
         = PyDict.lookup cid (clients (self w)))
    ∧ (∀ cid ws m, EvSendJson cid ws m None ∈ evs →
         ∃ t, PyDict.lookup cid (clients (self w1))
              = record_delivery msg t
                  <$> PyDict.lookup cid (clients (self w))).
Proof.
  intros Hwf msg.
  set (w0 := {| self := self w; net := net w; ticks := S (ticks w) |}).
  destruct (broadcast_loop_run env et msg (clients (self w0)) [] w0)
    as (w1 & evs & Hrun1 & Hnet1 & Hev1 & Hk1 & _).
  destruct (broadcast_loop_entries env et msg (clients (self w0)) Hwf [] w0)
    as (acc' & w1' & evs' & Hrun1' & Hnet1' & _ & Hsame & Hdel).
  rewrite Hrun1 in Hrun1'. injection Hrun1' as _ <-.
  rewrite Hnet1 in Hnet1'. apply app_inv_head in Hnet1'. subst evs'.
  destruct (remove_all_run (failed_sends evs) w1)
    as (w2 & Hrun2 & Hnet2 & _ & Hc2).
  exists w2, evs. unfold broadcast.
  rewrite (bind_ok _ _ _ _ _ (time_time_run env w)).
  rewrite (bind_ok _ _ _ _ _ (get_run _)).
  fold w0 msg. rewrite (bind_ok _ _ _ _ _ Hrun1). simpl. rewrite Hrun2.
  split; [reflexivity|]. split; [by rewrite Hnet2, Hnet1|].
  split; [exact Hev1|]. rewrite Hc2.
  split; [by rewrite keys_filter_keys, Hk1|].
  split.
  - intros cid Hno. rewrite lookup_filter_keys, decide_False.
    + apply Hsame. intros ws m. apply Hno.
    + intros (ws & m & e & Hin)%elem_of_failed_sends. by apply Hno in Hin.
  - intros cid ws m Hin. rewrite lookup_filter_keys, decide_False.
    + by eapply Hdel.
    + intros (ws' & m' & e & Hin')%elem_of_failed_sends.
      assert (NoDup (filter (λ kc, is_subscribed et kc.2 = true)
                       (clients (self w))).*1) as Hnd.
      { eapply sublist_NoDup; [exact Hwf|].
        apply fmap_sublist, sublist_filter. }
      pose proof (sends_unique _ _ _ _ _ _ _ _ _ _ Hev1 Hnd Hin Hin').
      discriminate.
Qed.

(** One broadcast makes exactly [get_subscriber_count(event_type)] calls,
    all of them [send_json]: one for each subscribed client, in registry
    order, each on that client's websocket and with the same message. *)
Theorem broadcast_call_sequence env et data w :
  let msg := mkMessage et data (clock env (ticks w)) in
  let evs := new_effects w (broadcast env et data w).2 in
  omap send_call evs
  = (λ kc, (kc.1, websocket kc.2, msg))
      <$> filter (λ kc, is_subscribed et kc.2 = true) (clients (self w))
  ∧ length evs = get_subscriber_count (self w) et
  ∧ get_subscriber_count (self w) et ≤ client_count (self w).
Proof.
  intros msg.
  destruct (broadcast_run env et data w) as (w1 & evs & Hrun & Hnet & Hev & _).
  rewrite Hrun. simpl. rewrite (new_effects_app _ _ _ Hnet).
  split; [by apply send_calls_of|].
  unfold get_subscriber_count, client_count.
  split; [symmetry; by eapply Forall2_length | apply length_filter].
Qed.

(** A broadcast leaves alone the entry of a client it makes no call for
    (in particular an unsubscribed one), and to the entry of a client whose
    send returned it appends the message to the history, keeping the last
    100, and sets [last_message_at]. *)
Theorem broadcast_records_delivery env et data w cid c :
  PyDict.wf (clients (self w)) →
  get_client (self w) cid = Some c →
  let msg := mkMessage et data (clock env (ticks w)) in
  let w1 := (broadcast env et data w).2 in
  (is_subscribed et c = false → get_client (self w1) cid = Some c)
  ∧ (EvSendJson cid (websocket c) msg None ∈ new_effects w w1 →
     ∃ t, get_client (self w1) cid = Some (record_delivery msg t c)
          ∧ get_client_history (self w1) cid
            = deque_append 100 msg (message_history c)).
Proof.
  intros Hwf Hl msg.
  destruct (broadcast_exact env et data w Hwf)
    as (w1 & evs & Hrun & Hnet & Hev & _ & Hsame & Hdel).
  rewrite Hrun. simpl. rewrite (new_effects_app _ _ _ Hnet).
  unfold get_client, get_client_history in *. split.
  - intros Hns. rewrite Hsame; [done|]. intros ws m r Hin.
    assert (is_subscribed et c = true); [|congruence].
    apply (broadcast_targets_subscribed env et data w cid c Hwf Hl).
    rewrite Hrun. simpl. rewrite (new_effects_app _ _ _ Hnet). by exists ws, m, r.
  - intros Hin. destruct (Hdel _ _ _ Hin) as [t Ht]. exists t.
    rewrite Ht, Hl. done.
Qed.

Lemma broadcast_records_delivery_witness :
  PyDict.wf (clients (self world2))
  ∧ get_client (self world2) "client-1" = Some client1
  ∧ let msg := mkMessage "event-a" JNull (clock env_ok (ticks world2)) in
    let w1 := (broadcast env_ok "event-a" JNull world2).2 in
    (is_subscribed "event-a" client1 = false →
     get_client (self w1) "client-1" = Some client1)
    ∧ (EvSendJson "client-1" (websocket client1) msg None
         ∈ new_effects world2 w1 →
       ∃ t, get_client (self w1) "client-1"
            = Some (record_delivery msg t client1)
            ∧ get_client_history (self w1) "client-1"
              = deque_append 100 msg (message_history client1)).
Proof.
  split; [exact world2_wf|]. split; [reflexivity|].
  apply (broadcast_records_delivery env_ok "event-a" JNull world2
           "client-1" client1).
  - exact world2_wf.
  - reflexivity.
Defined.

(** A broadcast never adds or reorders clients: the keys afterwards are
    the keys before, in the same order, without those whose send raised,
    and [client_count] drops by exactly the number of failed sends. *)
Theorem broadcast_keeps_order env et data w :
  PyDict.wf (clients (self w)) →
  let w1 := (broadcast env et data w).2 in
  let failed := failed_sends (new_effects w w1) in
  PyDict.keys (clients (self w1))
  = filter (λ k, k ∉ failed) (PyDict.keys (clients (self w)))
  ∧ client_count (self w1) + length failed = client_count (self w).
Proof.
  intros Hwf.
  destruct (broadcast_exact env et data w Hwf)
    as (w1 & evs & Hrun & Hnet & Hev & Hkeys & _).
  rewrite Hrun. simpl. rewrite (new_effects_app _ _ _ Hnet).
  split; [exact Hkeys|].
  unfold client_count.
  rewrite <-(length_fmap fst (clients (self w1))).
  rewrite <-(length_fmap fst (clients (self w))).
  change (fst <$> ?d) with (PyDict.keys d). rewrite Hkeys.
  set (keys := PyDict.keys (clients (self w))).
  assert (failed_sends evs `sublist_of` keys) as Hsub.
  { etrans; [by eapply failed_sends_sublist|].
    apply fmap_sublist, sublist_filter. }
  assert (filter (λ k, ¬ (k ∉ failed_sends evs)) keys ≡ₚ failed_sends evs)
    as Hperm.
  { apply NoDup_Permutation.
    - by apply NoDup_filter.
    - by eapply sublist_NoDup.
    - intros k. rewrite list_elem_of_filter. split.
      + intros [Hin _]. by apply dec_stable in Hin.
      + intros Hin. split; [tauto|]. by eapply elem_of_sublist. }
  rewrite <-Hperm, <-length_app.
  by rewrite (filter_app_complement (λ k, k ∉ failed_sends evs) keys).
Qed.

Lemma broadcast_keeps_order_witness :
  PyDict.wf (clients (self world2))
  ∧ let w1 := (broadcast env_lost "event-a" JNull world2).2 in
    let failed := failed_sends (new_effects world2 w1) in
    PyDict.keys (clients (self w1))
    = filter (λ k, k ∉ failed) (PyDict.keys (clients (self world2)))
    ∧ client_count (self w1) + length failed = client_count (self world2).
Proof.
  split; [exact world2_wf|].
  apply (broadcast_keeps_order env_lost "event-a" JNull world2).
  exact world2_wf.
Defined.

(** ** What holds in every state *)

Lemma deque_append_length n x q : length (deque_append n x q) ≤ n.
Proof. unfold deque_append. rewrite length_drop. lia. Qed.

Lemma entry_ok_record_delivery k c msg t :
  entry_ok (k, c) → entry_ok (k, set_last_message_at t (history_append msg c)).
Proof. intros [Hid _]. split; [exact Hid | apply deque_append_length]. Qed.

Lemma Forall_filter_keep {A} (Q P : A → Prop) `{!∀ x, Decision (P x)} l :
  Forall Q l → Forall Q (filter P l).
Proof.
  rewrite !Forall_forall. intros HQ x [_ Hin]%list_elem_of_filter. auto.
Qed.

Lemma ok_del k (d : list (string * ConnectedClient)) :
  PyDict.wf d ∧ Forall entry_ok d →
  PyDict.wf (PyDict.del k d) ∧ Forall entry_ok (PyDict.del k d).
Proof.
  intros [Hwf Hok]. split; [by apply wf_del | by apply Forall_filter_keep].
Qed.

Lemma ok_update k f (d : list (string * ConnectedClient)) :
  (∀ c, entry_ok (k, c) → entry_ok (k, f c)) →
  PyDict.wf d ∧ Forall entry_ok d →
  PyDict.wf (PyDict.update k f d) ∧ Forall entry_ok (PyDict.update k f d).
Proof.
  intros Hf [Hwf Hok]. split; [by apply wf_update | by apply Forall_update].
Qed.

Lemma update_subscriptions_run cid events w :
  ∃ w1,
    update_subscriptions cid events w = (Ok tt, w1)
    ∧ net w1 = net w
    ∧ clients (self w1)
      = PyDict.update cid (set_subscribed_events (list_to_set events))
          (clients (self w)).
Proof.
  unfold update_subscriptions.
  rewrite (bind_ok _ _ _ _ _ (get_run _)). unfold PyDict.contains.
  destruct (PyDict.lookup cid (clients (self w))) as [c|] eqn:Hl.
  - eexists. split; [reflexivity|]. by split.
  - exists w. split; [reflexivity|]. split; [reflexivity|].
    apply lookup_None_keys in Hl. unfold PyDict.keys in Hl.
    induction (clients (self w)) as [|[k v] d IH]; [done|]. simpl.
    rewrite fmap_cons, not_elem_of_cons in Hl. destruct Hl as [Hne Hl].
    rewrite decide_False by done. f_equal. by apply IH.
Qed.

Lemma send_to_client_run env cid et data w :
  ∃ w1,
    send_to_client env cid et data w = (Ok tt, w1)
    ∧ (clients (self w1) = clients (self w)
       ∨ clients (self w1) = PyDict.del cid (clients (self w))
       ∨ ∃ msg t,
           clients (self w1)
           = PyDict.update cid (set_last_message_at t)
               (PyDict.update cid (history_append msg) (clients (self w)))).
Proof.
  unfold send_to_client.
  rewrite (bind_ok _ _ _ _ _ (get_run _)).
  destruct (PyDict.lookup cid (clients (self w))) as [c|] eqn:Hl;
    [|exists w; by split; [|left]].
  rewrite (bind_ok _ _ _ _ _ (time_time_run env w)).
  unfold try_except. rewrite bind_run. unfold ws_send_json.
  match goal with
  | |- context [send_json_raises ?e ?n ?s ?m] =>
      destruct (send_json_raises e n s m) as [e'|]
  end.
  - rewrite bind_run, log_run.
    match goal with |- context [remove cid ?wl] =>
      destruct (remove_run cid wl) as (w1 & Hrun & _ & _ & Hc) end.
    exists w1. split; [exact Hrun|]. right. left. exact Hc.
  - eexists. split; [reflexivity|]. right. right. by eexists _, _.
Qed.

Lemma broadcast_loop_ok env et msg items : ∀ acc w,
  Forall entry_ok (clients (self w)) →
  Forall entry_ok
    (clients (self (for_fold (broadcast_body env et msg) acc items w).2)).
Proof.
  induction items as [|[k c] items IH]; intros acc w Hok; [done|].
  simpl. rewrite bind_run, broadcast_body_exact.
  destruct (is_subscribed et c); [|by apply IH].
  destruct (send_json_raises env (net w) (websocket c) msg); apply IH; simpl.
  - done.
  - apply Forall_update; [apply Forall_update; [done|]|].
    + intros v [Hid _]. split; [exact Hid | apply deque_append_length].
    + intros v Hv. exact Hv.
Qed.

Lemma broadcast_ok env et data w :
  registry_ok (self w) →
  ∃ w1, broadcast env et data w = (Ok tt, w1) ∧ registry_ok (self w1).
Proof.
  intros [Hwf Hok].
  set (w0 := {| self := self w; net := net w; ticks := S (ticks w) |}).
  set (msg := {| msg_type := et; msg_data := data;
                 msg_timestamp := clock env (ticks w) |}).
  pose proof (broadcast_loop_ok env et msg (clients (self w0)) [] w0 Hok)
    as Hok1.
  destruct (broadcast_loop_run env et msg (clients (self w0)) [] w0)
    as (w1 & evs & Hrun1 & _ & _ & Hk1 & _).
  rewrite Hrun1 in Hok1. simpl in Hok1.
  destruct (remove_all_run (failed_sends evs) w1)
    as (w2 & Hrun2 & _ & _ & Hc2).
  exists w2. unfold broadcast.
  rewrite (bind_ok _ _ _ _ _ (time_time_run env w)).
  rewrite (bind_ok _ _ _ _ _ (get_run _)).
  fold w0 msg. rewrite (bind_ok _ _ _ _ _ Hrun1). simpl. rewrite Hrun2.
  split; [reflexivity|]. unfold registry_ok. rewrite Hc2. split.
  - unfold PyDict.wf. rewrite keys_filter_keys, Hk1. by apply NoDup_filter.
  - by apply Forall_filter_keep.
Qed.

Lemma run_call_ok env call w :
  registry_ok (self w) →
  ∃ w1, run_call env call w = (Ok tt, w1) ∧ registry_ok (self w1).
Proof.
  intros Hok. destruct call as [ws cid events|cid|cid|et data|cid et data|cid events];
    simpl.
  - destruct (connect_run env ws cid events w) as (w1 & evs & Hrun & _ & Hc & _).
    exists w1. rewrite (bind_ok _ _ _ _ _ Hrun). split; [reflexivity|].
    unfold registry_ok. rewrite Hc, set_del_snoc.
    destruct (ok_del cid _ Hok) as [Hwf' Hok'].
    split.
    + rewrite <-set_del_snoc. apply wf_set_del, Hok.
    + apply Forall_app. split; [done|]. repeat constructor.
  - destruct (disconnect_exact env cid w) as (w1 & Hrun & _ & Hc & _).
    exists w1. split; [exact Hrun|]. unfold registry_ok. rewrite Hc.
    by apply ok_del.
  - destruct (remove_run cid w) as (w1 & Hrun & _ & _ & Hc).
    exists w1. split; [exact Hrun|]. unfold registry_ok. rewrite Hc.
    by apply ok_del.
  - by apply broadcast_ok.
  - destruct (send_to_client_run env cid et data w)
      as (w1 & Hrun & [Hc | [Hc | (msg & t & Hc)]]);
      exists w1; (split; [exact Hrun|]); unfold registry_ok; rewrite Hc.
    + exact Hok.
    + by apply ok_del.
    + apply ok_update; [by intros c Hc'|].
      apply ok_update; [|exact Hok].
      intros c [Hid _]. split; [exact Hid | apply deque_append_length].
  - destruct (update_subscriptions_run cid events w) as (w1 & Hrun & _ & Hc).
    exists w1. split; [exact Hrun|]. unfold registry_ok. rewrite Hc.
    apply ok_update; [by intros c Hc'|exact Hok].
Qed.

Lemma run_calls_ok env calls : ∀ w,
  registry_ok (self w) →
  ∃ w1, run_calls env calls w = (Ok tt, w1) ∧ registry_ok (self w1).
Proof.
  unfold run_calls, for_each.
  induction calls as [|call calls IH]; intros w Hok; [by exists w|].
  destruct (run_call_ok env call w Hok) as (w1 & Hrun & Hok1).
  destruct (IH w1 Hok1) as (w2 & Hrun2 & Hok2).
  exists w2. simpl. rewrite (bind_ok _ _ _ _ _ Hrun). by split.
Qed.

(** No sequence of [connect], [disconnect], [remove], [broadcast],
    [send_to_client] and [update_subscriptions] calls makes the manager
    raise, whatever the websockets do; and in every state such calls
    reach from a fresh manager the registry has one entry per id, each
    entry is filed under its own [client_id], and no history holds more
    than 100 messages. *)
Theorem manager_never_raises_and_stays_ok env calls :
  registry_ok init
  ∧ ∀ w, registry_ok (self w) →
         ∃ w1, run_calls env calls w = (Ok tt, w1) ∧ registry_ok (self w1).
Proof.
  split; [|by apply run_calls_ok].
  split; [apply NoDup_nil_2 | constructor].
Qed.

(** In every state reachable from a fresh manager, [get_client_history]
    returns at most 100 messages, [get_client(id)] returns a client whose
    [client_id] is that id, and [get_all_clients] lists every id once. *)
Theorem accessors_in_reachable_states env calls cid :
  let m := self (run_calls env calls world0).2 in
  length (get_client_history m cid) ≤ 100
  ∧ (∀ c, get_client m cid = Some c → client_id c = cid)
  ∧ NoDup (get_all_clients m).*1.
Proof.
  assert (registry_ok (self world0)) as Hok0
    by (split; [apply NoDup_nil_2 | constructor]).
  destruct (run_calls_ok env calls world0 Hok0) as (w1 & Hrun & Hwf & Hok).
  rewrite Hrun. simpl. unfold get_client_history, get_client, get_all_clients.
  split; [|split; [|exact Hwf]].
  - destruct (PyDict.lookup cid (clients (self w1))) as [c|] eqn:Hl;
      [|simpl; lia].
    apply lookup_Some_elem in Hl.
    rewrite Forall_forall in Hok. by destruct (Hok _ Hl).
  - intros c Hl%lookup_Some_elem.
    rewrite Forall_forall in Hok. by destruct (Hok _ Hl).
Qed.

End WSMMoreFacts.

(* ===================================================================== *)
(** * Facts: broadcast as a task                                         *)
(* ===================================================================== *)

Module WSMAsyncFacts.
Import PyRt PyRtFacts WSM WSMFacts WSMMoreFacts WSMAsync.

Lemma atomically_ok {Σ A} (c : Py Σ A) s a s' :
  c s = (Ok a, s') → atomically c s = (Returned a, s').
Proof. unfold atomically. by intros ->. Qed.

Lemma task_bind_returned {Σ A B} (c : Task Σ A) (f : A → Task Σ B) s a s' :
  c s = (Returned a, s') → task_bind c f s = f a s'.
Proof. unfold task_bind. by intros ->. Qed.

(** ** A quiet schedule: the task runs as the method does on its own *)

Lemma await_send_json_quiet env sch via ws message w :
  quiet sch →
  await_send_json env sch via ws message w
  = atomically (ws_send_json env via ws message) w.
Proof.
  intros Hq. destruct (Hq (net w)) as [Hc Hm].
  unfold await_send_json, atomically, ws_send_json. rewrite Hc, Hm.
  by destruct (send_json_raises env (net w) ws message).
Qed.

Lemma task_broadcast_body_quiet env sch et msg acc item w :
  quiet sch →
  task_broadcast_body env sch et msg acc item w
  = atomically (broadcast_body env et msg acc item) w.
Proof.
  intros Hq. unfold task_broadcast_body, broadcast_body.
  destruct (is_subscribed et item.2); [|done].
  unfold try_except_exception, task_bind, try_except.
  rewrite (await_send_json_quiet _ _ _ _ _ _ Hq).
  unfold atomically at 1 4. rewrite bind_run.
  destruct (ws_send_json env item.1 (websocket item.2) msg w)
    as [[[]|e] w1]; reflexivity.
Qed.

Lemma length_update {V} k f (d : list (string * V)) :
  length (PyDict.update k f d) = length d.
Proof.
  induction d as [|[k' v] d IH]; [done|]. simpl.
  case_decide; simpl; by rewrite ?IH.
Qed.

(** Mutating the object at position [pos] leaves the entries after it as
    they are. *)
Lemma drop_update_later {V} f (d : list (string * V)) : ∀ pos k v,
  PyDict.wf d → d !! pos = Some (k, v) →
  drop (S pos) (PyDict.update k f d) = drop (S pos) d.
Proof.
  induction d as [|[k' v'] d IH]; intros pos k v Hwf Hl; [done|].
  apply NoDup_cons in Hwf as [Hk' Hwf]. simpl.
  destruct pos as [|pos]; simpl in Hl.
  - injection Hl as -> ->. by rewrite decide_True.
  - case_decide as Hkk; [done|]. simpl. by apply (IH pos k v).
Qed.

(** What one iteration of the loop of [broadcast] does to the registry:
    nothing, or it mutates the object filed under the key. *)
Lemma broadcast_body_clients env et msg acc k c w :
  ∃ acc' w',
    broadcast_body env et msg acc (k, c) w = (Ok acc', w')
    ∧ (clients (self w') = clients (self w)
       ∨ ∃ f g, clients (self w')
                = PyDict.update k f (PyDict.update k g (clients (self w)))).
Proof.
  rewrite broadcast_body_exact.
  destruct (is_subscribed et c); [|eauto].
  destruct (send_json_raises env (net w) (websocket c) msg); simpl; eauto 8.
Qed.

Lemma items_loop_quiet env sch et msg size :
  quiet sch →
  ∀ todo pos acc w,
    PyDict.wf (clients (self w)) →
    length (clients (self w)) = size →
    todo + pos = size →
    items_loop size todo pos (task_broadcast_body env sch et msg) acc w
    = atomically
        (for_fold (broadcast_body env et msg) acc
           (drop pos (clients (self w)))) w.
Proof.
  intros Hq.
  induction todo as [|todo IH]; intros pos acc w Hwf Hlen Hsum.
  - simpl. rewrite decide_True by done.
    rewrite drop_ge by lia. reflexivity.
  - simpl. rewrite decide_True by done.
    destruct (lookup_lt_is_Some_2 (clients (self w)) pos ltac:(lia))
      as [[k c] Hl].
    rewrite Hl, (drop_S _ _ _ Hl). simpl for_fold.
    destruct (broadcast_body_clients env et msg acc k c w)
      as (acc' & w' & Hbody & Hcl).
    rewrite (task_bind_returned _ _ _ acc' w').
    2:{ rewrite task_broadcast_body_quiet by done.
        by apply atomically_ok. }
    assert (PyDict.wf (clients (self w'))
            ∧ length (clients (self w')) = size
            ∧ drop (S pos) (clients (self w'))
              = drop (S pos) (clients (self w))) as (Hwf' & Hlen' & Hdrop).
    { destruct Hcl as [-> | (f & g & ->)]; [done|].
      split; [by do 2 apply wf_update|].
      split; [by rewrite !length_update|].
      assert (∃ v, PyDict.update k g (clients (self w)) !! pos = Some (k, v))
        as [v Hl'].
      { clear -Hl. revert pos Hl.
        induction (clients (self w)) as [|[k' v'] d IHd]; intros pos Hl;
          [done|].
        simpl. destruct pos as [|pos]; simpl in Hl.
        - injection Hl as -> ->. rewrite decide_True by done. eauto.
        - case_decide; simpl; eauto. }
      rewrite (drop_update_later f _ pos k v); [|by apply wf_update|done].
      by rewrite (drop_update_later g _ pos k c). }
    rewrite (IH (S pos) acc' w' Hwf' Hlen' ltac:(lia)), Hdrop.
    unfold atomically. rewrite (bind_ok _ _ _ _ _ Hbody). reflexivity.
Qed.

Lemma atomically_bind {Σ A B} (c : Py Σ A) (f : A → Py Σ B) s :
  atomically (c ≫= f) s
  = task_bind (atomically c) (λ a, atomically (f a)) s.
Proof.
  unfold atomically, task_bind. rewrite bind_run.
  by destruct (c s) as [[a|e] s'].
Qed.

(** Under a quiet schedule the task does what the method does on its
    own. *)
Lemma task_broadcast_quiet env sch et data w :
  quiet sch → PyDict.wf (clients (self w)) →
  task_broadcast env sch et data w = atomically (broadcast env et data) w.
Proof.
  intros Hq Hwf. unfold task_broadcast, broadcast.
  rewrite atomically_bind.
  rewrite !(task_bind_returned _ _ _ _ _
              (atomically_ok _ _ _ _ (time_time_run env w))).
  set (w0 := {| self := self w; net := net w; ticks := S (ticks w) |}).
  rewrite atomically_bind.
  rewrite !(task_bind_returned _ _ _ _ _
              (atomically_ok _ _ _ _ (get_run w0))).
  rewrite atomically_bind. unfold task_bind.
  rewrite (items_loop_quiet env sch et _ _ Hq) by done.
  by rewrite drop_0.
Qed.

(** ** Any schedule: calls are made for registered clients only *)

Lemma task_broadcast_body_run env sch et msg acc item w :
  item ∈ clients (self w) →
  ∃ evs,
    net (task_broadcast_body env sch et msg acc item w).2 = net w ++ evs
    ∧ sends_within evs (PyDict.keys (clients (self w)))
    ∧ PyDict.keys
        (clients (self (task_broadcast_body env sch et msg acc item w).2))
      ⊆ PyDict.keys (clients (self w)).
Proof.
  intros Hin. unfold task_broadcast_body.
  destruct (is_subscribed et item.2).
  2:{ exists []. simpl. rewrite app_nil_r. split; [done|].
      split; [|done]. intros ???? Hel. by apply elem_of_nil in Hel. }
  unfold try_except_exception, task_bind, await_send_json.
  set (r := send_json_raises env (net w) (websocket item.2) msg).
  set (w1 := record_effect (EvSendJson item.1 (websocket item.2) msg r) w).
  assert (∃ w2 closes,
            match meanwhile sch (net w) with
            | Some other => (disconnect env other w1).2
            | None => w1
            end = w2
            ∧ net w2 = net w ++ EvSendJson item.1 (websocket item.2) msg r
                                :: closes
            ∧ sends_within closes []
            ∧ PyDict.keys (clients (self w2))
              ⊆ PyDict.keys (clients (self w)))
    as (w2 & closes & -> & Hnet & Hcl & Hkeys).
  { destruct (meanwhile sch (net w)) as [other|].
    - destruct (disconnect_exact env other w1) as (w2 & Hd & Hn & Hc & _).
      rewrite Hd. simpl. eexists w2, _. split; [done|].
      split; [rewrite Hn; simpl; by rewrite <-app_assoc|].
      split.
      + intros via ws m o Hel.
        simpl in Hel. destruct (PyDict.lookup other _);
          [apply list_elem_of_singleton in Hel; discriminate
          |by apply elem_of_nil in Hel].
      + rewrite Hc, keys_del. simpl. intros k Hk.
        by apply list_elem_of_filter in Hk as [_ Hk].
    - exists w1, []. split; [done|]. split; [done|]. split; [|done].
      intros ???? Hel. by apply elem_of_nil in Hel. }
  assert (sends_within (EvSendJson item.1 (websocket item.2) msg r :: closes)
            (PyDict.keys (clients (self w)))) as Hsends.
  { intros via ws m o Hel. apply elem_of_cons in Hel as [Heq | Hel].
    - injection Heq as -> _ _ _. apply list_elem_of_fmap. by exists item.
    - apply Hcl in Hel. by apply elem_of_nil in Hel. }
  destruct (cancelled sch (net w)); [simpl; eauto|].
  destruct r as [e|]; simpl.
  - eexists. split; [exact Hnet|]. split; [exact Hsends|]. exact Hkeys.
  - eexists. split; [exact Hnet|]. split; [exact Hsends|].
    by rewrite !keys_update.
Qed.

Lemma items_loop_run env sch et msg size : ∀ todo pos acc w,
  ∃ evs,
    net (items_loop size todo pos (task_broadcast_body env sch et msg)
           acc w).2 = net w ++ evs
    ∧ sends_within evs (PyDict.keys (clients (self w))).
Proof.
  induction todo as [|todo IH]; intros pos acc w; simpl.
  - exists []. rewrite app_nil_r.
    split; [by case_decide|]. intros ???? Hel. by apply elem_of_nil in Hel.
  - case_decide as Hsize.
    2:{ exists []. rewrite app_nil_r. split; [done|].
        intros ???? Hel. by apply elem_of_nil in Hel. }
    destruct (clients (self w) !! pos) as [item|] eqn:Hl.
    2:{ exists []. rewrite app_nil_r. split; [done|].
        intros ???? Hel. by apply elem_of_nil in Hel. }
    apply list_elem_of_lookup_2 in Hl.
    destruct (task_broadcast_body_run env sch et msg acc item w Hl)
      as (evs1 & Hnet1 & Hs1 & Hkeys1).
    unfold task_bind.
    destruct (task_broadcast_body env sch et msg acc item w)
      as [[acc'|raised] w']; simpl in *.
    + destruct (IH (S pos) acc' w') as (evs2 & Hnet2 & Hs2).
      exists (evs1 ++ evs2). split.
      * by rewrite Hnet2, Hnet1, app_assoc.
      * intros via ws m o Hel. apply elem_of_app in Hel as [Hel | Hel].
        -- by apply Hs1 in Hel.
        -- apply Hkeys1. by apply Hs2 in Hel.
    + eauto.
Qed.

Lemma task_broadcast_targets_registered env sch et data w cid :
  targeted cid (new_effects w (task_broadcast env sch et data w).2) →
  is_Some (PyDict.lookup cid (clients (self w))).
Proof.
  intros (ws & m & o & Hel). apply lookup_is_Some_keys.
  revert Hel. unfold task_broadcast.
  rewrite (task_bind_returned _ _ _ _ _
             (atomically_ok _ _ _ _ (time_time_run env w))).
  set (w0 := {| self := self w; net := net w; ticks := S (ticks w) |}).
  rewrite (task_bind_returned _ _ _ _ _
             (atomically_ok _ _ _ _ (get_run w0))).
  set (msg := mkMessage et data (clock env (ticks w))).
  destruct (items_loop_run env sch et msg (length (clients (self w0)))
              (length (clients (self w0))) 0 [] w0) as (evs & Hnet & Hs).
  unfold task_bind.
  destruct (items_loop _ _ _ _ _ w0) as [[failed|raised] w1]; simpl in Hnet.
  - destruct (remove_all_run failed w1) as (w2 & Hrm & Hnet2 & _).
    rewrite (atomically_ok _ _ _ _ Hrm). simpl.
    rewrite (new_effects_app w w2 evs) by (by rewrite Hnet2, Hnet).
    intros Hel. by apply Hs in Hel.
  - simpl. rewrite (new_effects_app w w1 evs) by done.
    intros Hel. by apply Hs in Hel.
Qed.

(** C9, as stated, fails: [broadcast] can propagate an exception, and
    then it skips its cleanup.  In both runs below ["event-a"] is
    broadcast to the two clients of [world2] and the websocket of
    ["client-1"] raises [Exception("Connection lost")], which is caught.
    In the first the task is cancelled while it awaits the [send_json] of
    ["client-2"]: [CancelledError] is not caught by [except Exception].
    In the second another task disconnects ["client-2"] while the
    [send_json] of ["client-1"] is awaited: the next step of the loop
    over [self.clients.items()], which is outside the [try], raises
    [RuntimeError].  Either way the exception reaches the caller of
    [broadcast] and ["client-1"], whose send raised, is still
    registered. *)
Lemma broadcast_propagates :
  PyDict.wf (clients (self world2))
  ∧ (let r := task_broadcast env_lost schedule_cancel_second
                "event-a" JNull world2 in
     r.1 = Raised CancelledError
     ∧ failed_sends (new_effects world2 r.2) = ["client-1"]
     ∧ PyDict.contains "client-1" (clients (self r.2)) = true)
  ∧ (let r := task_broadcast env_lost schedule_disconnect_other
                "event-a" JNull world2 in
     r.1 = Raised (AnException changed_size)
     ∧ failed_sends (new_effects world2 r.2) = ["client-1"]
     ∧ PyDict.contains "client-1" (clients (self r.2)) = true).
Proof.
  split; [exact world2_wf|].
  split; repeat split; vm_compute; reflexivity.
Qed.

(** C9, amended.  When [broadcast] runs without being cancelled and no
    other task changes the registry while it awaits a send, it returns
    normally whatever exceptions (instances of [Exception]) the
    websockets raise; an entry whose [send_json] call raised is gone from
    the registry when it returns, and no later broadcast, however it is
    scheduled, makes a call for it; every other entry is still registered
    with the same id, websocket and subscriptions. *)
Theorem broadcast_drops_failed_clients env sch et data w :
  quiet sch →
  PyDict.wf (clients (self w)) →
  ∃ w1,
    task_broadcast env sch et data w = (Returned tt, w1)
    ∧ (∀ cid, send_failed cid (new_effects w w1) →
         get_client (self w1) cid = None
         ∧ ∀ env' sch' et' data',
             ¬ targeted cid
                 (new_effects w1
                    (task_broadcast env' sch' et' data' w1).2))
    ∧ (∀ cid c, get_client (self w) cid = Some c →
         ¬ send_failed cid (new_effects w w1) →
         ∃ c', get_client (self w1) cid = Some c' ∧ same_identity c c').
Proof.
  intros Hq Hwf.
  destruct (broadcast_run_cleanup env et data w) as (w1 & Hrun & Hgone & Hkept).
  exists w1. split.
  - rewrite task_broadcast_quiet by done. by apply atomically_ok.
  - split; [|exact Hkept].
    intros cid Hf. destruct (Hgone cid Hf) as [Hnone _].
    split; [exact Hnone|].
    intros env' sch' et' data' Ht%task_broadcast_targets_registered.
    unfold get_client in Hnone. rewrite Hnone in Ht. by destruct Ht.
Qed.

Lemma broadcast_drops_failed_clients_witness :
  quiet schedule_quiet
  ∧ PyDict.wf (clients (self world2))
  ∧ ∃ w1,
      task_broadcast env_lost schedule_quiet "event-a" JNull world2
      = (Returned tt, w1)
      ∧ (∀ cid, send_failed cid (new_effects world2 w1) →
           get_client (self w1) cid = None
           ∧ ∀ env' sch' et' data',
               ¬ targeted cid
                   (new_effects w1
                      (task_broadcast env' sch' et' data' w1).2))
      ∧ (∀ cid c, get_client (self world2) cid = Some c →
           ¬ send_failed cid (new_effects world2 w1) →
           ∃ c', get_client (self w1) cid = Some c' ∧ same_identity c c').
Proof.
  split; [intros evs; split; reflexivity|].
  split; [exact world2_wf|].
  apply (broadcast_drops_failed_clients env_lost schedule_quiet
           "event-a" JNull world2).
  - intros evs. split; reflexivity.
  - exact world2_wf.
Defined.
End WSMAsyncFacts.
